(** * LitKeeper: the crawl engine and the document packager of [app/utils.py]

    A shallow embedding of [download_story] and of the metadata and chapter
    assembly of [create_epub_file], with the properties of the design
    document stated over it.

    Conventions of the embedding.
    - Python [str] is [string]; the [str] methods the code calls ([strip],
      [lower], [startswith], [split], [find]) are written out below for the
      ASCII range.
    - A parsed page is a record of what the BeautifulSoup and lxml queries of
      the code return on it; the string processing the code applies to those
      answers is part of the model.
    - [processed_urls] is a [gset string], the other collections are lists.
    - The two nested [while] loops are a step function on an explicit state
      with two control points; [time.sleep] and the logging calls do not
      change the state and are left out. *)

From stdpp Require Import base strings list gmap.
From Stdlib Require Import Ascii DecimalString Lia.

Local Open Scope string_scope.
Local Open Scope list_scope.
Local Open Scope nat_scope.

(** ** Python string methods *)

Module Py.

(** [str.isspace] on one ASCII character: tab, line feed, vertical tab,
    form feed, carriage return, the four separators 28-31, and space. *)
Definition is_space (a : ascii) : bool :=
  let n := nat_of_ascii a in
  (((9 <=? n) && (n <=? 13)) || ((28 <=? n) && (n <=? 32)))%nat.

Fixpoint lstrip (s : string) : string :=
  match s with
  | EmptyString => EmptyString
  | String a rest => if is_space a then lstrip rest else s
  end.

(** [rstrip]: a character is kept when it is not a space or when something
    is left after it. *)
Fixpoint rstrip (s : string) : string :=
  match s with
  | EmptyString => EmptyString
  | String a rest =>
      match rstrip rest with
      | EmptyString => if is_space a then EmptyString else String a EmptyString
      | kept => String a kept
      end
  end.

Definition strip (s : string) : string := rstrip (lstrip s).

Definition lower_ascii (a : ascii) : ascii :=
  let n := nat_of_ascii a in
  if ((65 <=? n) && (n <=? 90))%nat then ascii_of_nat (n + 32) else a.

Fixpoint lower (s : string) : string :=
  match s with
  | EmptyString => EmptyString
  | String a rest => String (lower_ascii a) (lower rest)
  end.

Definition startswith (s p : string) : bool := String.prefix p s.

(** Truth value of a [str] and of a [str | None]. *)
Definition truthy (s : string) : bool :=
  match s with EmptyString => false | _ => true end.

Definition truthy_opt (o : option string) : bool :=
  match o with Some s => truthy s | None => false end.

(** [sep.join(parts)]. *)
Fixpoint join (sep : string) (parts : list string) : string :=
  match parts with
  | [] => EmptyString
  | [p] => p
  | p :: rest => p +:+ sep +:+ join sep rest
  end.

(** [str(n)] for a non-negative integer. *)
Definition str_of_nat (n : nat) : string :=
  NilEmpty.string_of_uint (Nat.to_uint n).

(** [s.split(sep)] for a non-empty [sep]: the pieces between the
    non-overlapping occurrences of [sep], scanned left to right. [skip]
    counts the characters of a matched separator still to be passed over,
    [cur] holds the current piece reversed. *)
Fixpoint split_go (sep : string) (skip : nat) (cur : string) (s : string)
  : list string :=
  match s with
  | EmptyString => [String.rev cur]
  | String a rest =>
      match skip with
      | S k => split_go sep k cur rest
      | O =>
          if String.prefix sep s
          then String.rev cur :: split_go sep (String.length sep - 1) EmptyString rest
          else split_go sep 0 (String a cur) rest
      end
  end.

Definition split (s sep : string) : list string := split_go sep 0 EmptyString s.

(** [s.find(sub)]: the index of the first occurrence, [None] for -1. *)
Fixpoint find (s sub : string) : option nat :=
  if String.prefix sub s then Some 0
  else match s with
       | EmptyString => None
       | String _ rest => S <$> find rest sub
       end.

(** [s[:n]] and [s[n:]]. *)
Definition take (n : nat) (s : string) : string := String.substring 0 n s.

Fixpoint drop (n : nat) (s : string) : string :=
  match n, s with
  | O, _ => s
  | S k, String _ rest => drop k rest
  | S _, EmptyString => EmptyString
  end.

End Py.

(** The line feed and the blank-line separator ["\n\n"]. *)
Definition LF : string := String (ascii_of_nat 10) EmptyString.
Definition LFLF : string := LF +:+ LF.

(** ** Pages

    What the queries of [download_story] return on one parsed document. Text
    fields hold the [.text] of the element found, before the [strip] the
    code applies. *)

(** An [<a>] element: its text and its [href] attribute, if it has one
    (subscripting a tag without the attribute raises [KeyError]). *)
Record anchor := { a_text : string; a_href : option string }.

(** A [<span class="z_pm">]: its [.string] (absent when the span does not
    hold exactly one text node) and its [get_text()]. *)
Record span := { sp_string : option string; sp_text : string }.

(** A [<div class="z_S">] of the series panel: its [z_pm] spans in document
    order and its first [<a class="z_t">]. *)
Record story_div := { z_pm : list span; z_t : option anchor }.

Record soup := {
  headline : option string;           (* find("h1", class_="headline") *)
  author_link : option string;        (* find("a", class_="y_eU") *)
  breadcrumb : option (list string);  (* #BreadCrumbComponent: its a.h_aZ links *)
  tag_elements : list string;         (* find_all("a", class_="av_as av_r") *)
  content_div : option (list string); (* div.aa_ht: get_text(strip=True) of each <p> *)
  next_page_link : option anchor;     (* find("a", class_="l_bJ", title="Next Page") *)
  series_panel : option (list story_div) (* div.panel z_r z_R: its div.z_S *)
}.

(** A response body: the BeautifulSoup view of it and the answer of the
    lxml XPath query for the description ([text_content()] of each node
    found), [None] when [html.fromstring] raises on the document. *)
Record response := { parsed : soup; desc_nodes : option (list string) }.

(** [session.get] followed by [raise_for_status]. *)
Inductive fetched :=
| RequestException
| Response (r : response).

(** The site: what a GET of each URL gives. *)
Definition site := string -> fetched.

(** ** The crawl state *)

Record crawl := {
  story_title : string;
  story_author : string;
  story_category : option string;
  story_tags : list string;
  chapter_urls : list string;
  processed_urls : gset string;
  series_title : option string;
  chapter_titles : list string;
  chapter_contents : list string;
  chapter_descriptions : list string;
  current_page : nat;
  (* ghost: the URLs passed to [session.get], each with the value of
     [current_page] at the call, oldest first *)
  fetch_log : list (string * nat)
}.

(** The variables of one iteration of the outer loop. [current_url] is
    [None] once the chapter's last page has been read. *)
Record chapter_vars := {
  current_url : option string;
  current_chapter : nat;
  current_chapter_content : string
}.

(** Control points: the head of [while chapter_urls] and the head of
    [while current_url]. *)
Inductive control :=
| AtQueue
| AtPage (v : chapter_vars).

(** What [download_story] returns: seven components, each [None] on
    failure. [ret_category] is [None] as well when the crawl succeeded and
    found no category; Python does not tell the two apart either. *)
Record returned := {
  ret_content : option string;
  ret_title : option string;
  ret_author : option string;
  ret_category : option string;
  ret_tags : option (list string);
  ret_chapter_titles : option (list string);
  ret_chapter_descriptions : option (list string)
}.

Definition all_none : returned :=
  {| ret_content := None; ret_title := None; ret_author := None;
     ret_category := None; ret_tags := None; ret_chapter_titles := None;
     ret_chapter_descriptions := None |}.

Definition base_url : string := "https://www.literotica.com".

(** [if not next_url.startswith("http"): next_url = base + next_url]. *)
Definition absolute (next_url : string) : string :=
  if Py.startswith next_url "http" then next_url else base_url +:+ next_url.

Definition starts_inc (s : string) : bool := Py.startswith (Py.lower s) "inc".

(** ** One page of [download_story] *)

Section Page.

Variable c : crawl.
Variable v : chapter_vars.
Variable r : response.

(** [current_title], computed on the first page of each chapter. *)
Definition current_title : string :=
  match headline (parsed r) with
  | Some t => Py.strip t
  | None => "Unknown Chapter"
  end.

(** The category block: the second breadcrumb link, ["I/T"] when it
    starts with "inc"; the old value when the page has no such link. *)
Definition extract_category : option string :=
  match breadcrumb (parsed r) with
  | Some category_links =>
      match category_links !! 1 with
      | Some link =>
          let cat := Py.strip link in
          if starts_inc cat then Some "I/T" else Some cat
      | None => story_category c
      end
  | None => story_category c
  end.

(** The tag block, given the category just extracted: the list
    comprehension, then the category put in front. *)
Definition kept_tags : list string :=
  filter (fun t => starts_inc t = false) (Py.strip <$> tag_elements (parsed r)).

Definition extract_tags (category : option string) : list string :=
  let tags := kept_tags in
  match category with
  | Some cat =>
      if Py.truthy cat && negb (bool_decide (cat ∈ tags))
      then cat :: tags else tags
  | None => tags
  end.

(** [chapter_description]; [None] when [html.fromstring] raises. *)
Definition extract_description : option string :=
  nodes ← desc_nodes r;
  Some (match nodes with d :: _ => Py.strip d | [] => "" end).

(** Lines 162-196: the branch [if current_page == 1]. *)
Definition first_page (d : string) : crawl :=
  let first := bool_decide (current_chapter v = 1) in
  let category := if first then extract_category else story_category c in
  {| story_title := if first then current_title else story_title c;
     story_author :=
       if first
       then match author_link (parsed r) with
            | Some a => Py.strip a
            | None => story_author c
            end
       else story_author c;
     story_category := category;
     story_tags := if first then extract_tags category else story_tags c;
     chapter_urls := chapter_urls c;
     processed_urls := processed_urls c;
     series_title := series_title c;
     chapter_titles := chapter_titles c;
     chapter_contents := chapter_contents c;
     chapter_descriptions := chapter_descriptions c ++ [d];
     current_page := current_page c;
     fetch_log := fetch_log c |}.

End Page.

(** Lines 206-207: every paragraph is appended, followed by ["\n\n"]. *)
Definition append_paragraphs (content : string) (paragraphs : list string) : string :=
  fold_left (fun acc p => acc +:+ p +:+ LFLF) paragraphs content.

(** Lines 201-208: the content block. Returns the state and the chapter
    content so far. *)
Definition story_block (c : crawl) (v : chapter_vars) (r : response)
  : crawl * string :=
  match content_div (parsed r) with
  | Some paragraphs =>
      ({| story_title := story_title c;
          story_author := story_author c;
          story_category := story_category c;
          story_tags := story_tags c;
          chapter_urls := chapter_urls c;
          processed_urls := processed_urls c;
          series_title := series_title c;
          chapter_titles :=
            if bool_decide (current_page c = 1)
            then chapter_titles c ++ [current_title r]
            else chapter_titles c;
          chapter_contents := chapter_contents c;
          chapter_descriptions := chapter_descriptions c;
          current_page := current_page c;
          fetch_log := fetch_log c |},
       append_paragraphs (current_chapter_content v) paragraphs)
  | None => (c, current_chapter_content v)
  end.

(** Lines 229-238: the first panel entry that has a "Series Info" span and
    a link gives the series title. *)
Definition has_series_info (d : story_div) : bool :=
  existsb (fun s => bool_decide (sp_string s = Some "Series Info")) (z_pm d).

Fixpoint find_series_title (story_links : list story_div) : option string :=
  match story_links with
  | [] => None
  | d :: rest =>
      if has_series_info d
      then match z_t d with
           | Some link => Some (Py.strip (a_text link))
           | None => find_series_title rest
           end
      else find_series_title rest
  end.

(** Lines 239-252: the first panel entry with a link whose first [z_pm]
    span reads "Next Part". The outer [option] is [None] when the link has
    no [href] ([KeyError]); the inner one is the absolute URL found. *)
Definition is_next_part (d : story_div) : bool :=
  match z_pm d with
  | s :: _ => bool_decide (Py.strip (sp_text s) = "Next Part")
  | [] => false
  end.

Fixpoint find_next_part (story_links : list story_div) : option (option string) :=
  match story_links with
  | [] => Some None
  | d :: rest =>
      match z_t d with
      | None => find_next_part rest
      | Some link =>
          if is_next_part d
          then next_url ← a_href link; Some (Some (absolute next_url))
          else find_next_part rest
      end
  end.

(** Lines 222-255: the chapter ends on this page. *)
Definition end_chapter (c : crawl) (content : string) (r : response) : option crawl :=
  let found :=
    match series_panel (parsed r) with
    | Some story_links =>
        if Py.truthy_opt (series_title c) then None
        else find_series_title story_links
    | None => None
    end in
  next ← match series_panel (parsed r) with
         | Some story_links => find_next_part story_links
         | None => Some None
         end;
  Some
    {| story_title := match found with Some t => t | None => story_title c end;
       story_author := story_author c;
       story_category := story_category c;
       story_tags := story_tags c;
       chapter_urls :=
         match next with
         | Some next_url =>
             if bool_decide (next_url ∈ processed_urls c)
             then chapter_urls c else chapter_urls c ++ [next_url]
         | None => chapter_urls c
         end;
       processed_urls := processed_urls c;
       series_title := match found with Some t => Some t | None => series_title c end;
       chapter_titles := chapter_titles c;
       chapter_contents := chapter_contents c ++ [content];
       chapter_descriptions := chapter_descriptions c;
       current_page := 1;
       fetch_log := fetch_log c |}.

(** Lines 213-220: the page has a "Next Page" link. *)
Definition turn_page (c : crawl) : crawl :=
  {| story_title := story_title c;
     story_author := story_author c;
     story_category := story_category c;
     story_tags := story_tags c;
     chapter_urls := chapter_urls c;
     processed_urls := processed_urls c;
     series_title := series_title c;
     chapter_titles := chapter_titles c;
     chapter_contents := chapter_contents c;
     chapter_descriptions := chapter_descriptions c;
     current_page := current_page c + 1;
     fetch_log := fetch_log c |}.

(** The body of the [try] of lines 152-258 on a response; [None] stands for
    an exception, which both handlers answer with the seven [None]s. *)
Definition process_page (c : crawl) (v : chapter_vars) (r : response)
  : option (control * crawl) :=
  c1 ← (if bool_decide (current_page c = 1)
        then first_page c v r <$> extract_description r
        else Some c);
  let '(c2, content) := story_block c1 v r in
  match next_page_link (parsed r) with
  | Some link =>
      next_url ← a_href link;
      Some (AtPage {| current_url := Some (absolute next_url);
                      current_chapter := current_chapter v;
                      current_chapter_content := content |},
            turn_page c2)
  | None =>
      c3 ← end_chapter c2 content r;
      Some (AtPage {| current_url := None;
                      current_chapter := current_chapter v;
                      current_chapter_content := content |},
            c3)
  end.

(** ** The crawl loop *)

(** Lines 272-274: [enumerate(zip(chapter_titles, chapter_contents), 1)]
    folded into the combined text. *)
Definition enumerate1 {A} (l : list A) : list (nat * A) :=
  zip (seq 1 (length l)) l.

Definition chapter_heading (i : nat) (title content : string) : string :=
  LFLF +:+ "Chapter " +:+ Py.str_of_nat i +:+ ": " +:+ title +:+ LFLF +:+ content.

Definition combine_chapters (titles contents : list string) : string :=
  fold_left (fun acc '(i, (title, content)) => acc +:+ chapter_heading i title content)
            (enumerate1 (zip titles contents)) "".

(** Lines 277-285. *)
Definition result_of (c : crawl) : returned :=
  {| ret_content := Some (combine_chapters (chapter_titles c) (chapter_contents c));
     ret_title := Some (story_title c);
     ret_author := Some (story_author c);
     ret_category := story_category c;
     ret_tags := Some (story_tags c);
     ret_chapter_titles := Some (chapter_titles c);
     ret_chapter_descriptions := Some (chapter_descriptions c) |}.

Inductive step_result :=
| Continue (k : control) (c : crawl)
| Return (ret : returned).

(** Lines 142-147: a URL is taken from the front of the queue. *)
Definition pop_rest (c : crawl) (rest : list string) : crawl :=
  {| story_title := story_title c;
     story_author := story_author c;
     story_category := story_category c;
     story_tags := story_tags c;
     chapter_urls := rest;
     processed_urls := processed_urls c;
     series_title := series_title c;
     chapter_titles := chapter_titles c;
     chapter_contents := chapter_contents c;
     chapter_descriptions := chapter_descriptions c;
     current_page := current_page c;
     fetch_log := fetch_log c |}.

Definition mark_processed (c : crawl) (u : string) : crawl :=
  {| story_title := story_title c;
     story_author := story_author c;
     story_category := story_category c;
     story_tags := story_tags c;
     chapter_urls := chapter_urls c;
     processed_urls := {[u]} ∪ processed_urls c;
     series_title := series_title c;
     chapter_titles := chapter_titles c;
     chapter_contents := chapter_contents c;
     chapter_descriptions := chapter_descriptions c;
     current_page := current_page c;
     fetch_log := fetch_log c |}.

(** Ghost: [session.get(u)] is called. *)
Definition log_fetch (c : crawl) (u : string) : crawl :=
  {| story_title := story_title c;
     story_author := story_author c;
     story_category := story_category c;
     story_tags := story_tags c;
     chapter_urls := chapter_urls c;
     processed_urls := processed_urls c;
     series_title := series_title c;
     chapter_titles := chapter_titles c;
     chapter_contents := chapter_contents c;
     chapter_descriptions := chapter_descriptions c;
     current_page := current_page c;
     fetch_log := fetch_log c ++ [(u, current_page c)] |}.

Section Crawl.

Variable web : site.

(** One pass from a loop head to the next loop head or to a [return]. *)
Definition step (k : control) (c : crawl) : step_result :=
  match k with
  | AtQueue =>
      match chapter_urls c with
      | [] => Return (result_of c)
      | u :: rest =>
          if bool_decide (u ∈ processed_urls c)
          then Continue AtQueue (pop_rest c rest)
          else Continue
                 (AtPage {| current_url := Some u;
                            current_chapter := length (chapter_contents c) + 1;
                            current_chapter_content := "" |})
                 (mark_processed (pop_rest c rest) u)
      end
  | AtPage v =>
      match current_url v with
      | Some u =>
          if Py.truthy u
          then match web u with
               | RequestException => Return all_none
               | Response r =>
                   match process_page (log_fetch c u) v r with
                   | Some (k', c') => Continue k' c'
                   | None => Return all_none
                   end
               end
          else Continue AtQueue c
      | None => Continue AtQueue c
      end
  end.

(** The loops, bounded by [fuel] passes; [None] when the bound is hit. *)
Fixpoint run (fuel : nat) (k : control) (c : crawl) : option returned :=
  match fuel with
  | O => None
  | S n =>
      match step k c with
      | Return ret => Some ret
      | Continue k' c' => run n k' c'
      end
  end.

(** The state after [n] passes, when none of them returned. *)
Fixpoint after (n : nat) (k : control) (c : crawl) : option (control * crawl) :=
  match n with
  | O => Some (k, c)
  | S m =>
      match step k c with
      | Return _ => None
      | Continue k' c' => after m k' c'
      end
  end.

(** Lines 126-139. *)
Definition start (url : string) : crawl :=
  {| story_title := "Unknown Title";
     story_author := "Unknown Author";
     story_category := None;
     story_tags := [];
     chapter_urls := [url];
     processed_urls := ∅;
     series_title := None;
     chapter_titles := [];
     chapter_contents := [];
     chapter_descriptions := [];
     current_page := 1;
     fetch_log := [] |}.

Definition download_story (fuel : nat) (url : string) : option returned :=
  run fuel AtQueue (start url).

(** The states the crawl of [url] goes through. *)
Definition reachable (url : string) (k : control) (c : crawl) : Prop :=
  ∃ n, after n AtQueue (start url) = Some (k, c).

End Crawl.

(** ** The packager: metadata and chapters of [create_epub_file] *)

Definition story_css : string := "
        <style>
            body { margin: 1em; padding: 0 1em; }
            p   { margin: 1.5em 0; line-height: 1.7; font-size: 1.1em; }
            h1  { margin: 2em 0 1em 0; text-align: center; }
        </style>
    ".

Definition metadata_css : string := "
        <style>
            body { margin: 1em; padding: 0 1em; }
            h1  { margin: 2em 0 1em 0; text-align: center; }
            .metadata { margin: 1.5em 0; line-height: 1.7; font-size: 1.1em; }
            .metadata-item { margin: 1em 0; }
            .metadata-label { font-weight: bold; margin-right: 0.5em; }
        </style>
    ".

(** Truth value of a [list | None]. *)
Definition truthy_list {A} (o : option (list A)) : bool :=
  match o with Some (_ :: _) => true | _ => false end.

Definition format_story_content (content : string) : string :=
  let paragraphs := Py.split content LFLF in
  let formatted_paragraphs :=
    (fun p => "<p>" +:+ Py.strip p +:+ "</p>")
      <$> filter (fun p => Py.truthy (Py.strip p) = true) paragraphs in
  story_css +:+ Py.join LF formatted_paragraphs.

Definition format_metadata_content
    (category : option string) (tags : option (list string)) : string :=
  let content := metadata_css +:+ "<h1>Story Information</h1><div class='metadata'>" in
  let content :=
    match category with
    | Some cat =>
        if Py.truthy cat
        then content +:+ "<div class='metadata-item'><span class='metadata-label'>Category: </span>"
                     +:+ cat +:+ "</div>"
        else content
    | None => content
    end in
  let content :=
    match tags with
    | Some (t :: ts) =>
        content +:+ "<div class='metadata-item'><span class='metadata-label'>Tags: </span>"
                +:+ Py.join ", " (t :: ts) +:+ "</div>"
    | _ => content
    end in
  content +:+ "</div>".

(** Lines 461-469: the [dc:description] field, [None] when it is not set. *)
Definition description_parts (titles descriptions : list string) : list string :=
  (fun '(t, d) => t +:+ ": " +:+ d)
    <$> filter (fun '(_, d) => Py.truthy d = true) (zip titles descriptions).

Definition description_metadata
    (chapter_titles chapter_descriptions : option (list string)) : option string :=
  if truthy_list chapter_titles && truthy_list chapter_descriptions
  then match description_parts (default [] chapter_titles)
                               (default [] chapter_descriptions) with
       | [] => None
       | parts => Some (Py.join LF parts)
       end
  else None.

(** An [epub.EpubHtml] item. *)
Record epub_html := { title : string; file_name : string; content : string }.

(** The only exception the model of the packager raises:
    [ValueError("No valid chapters found")]. *)
Inductive packaging_error := NoValidChapters.

Record epub_book := {
  dc_subject : list string;
  dc_description : option string;
  spine : list epub_html
}.

(** Lines 511-529: the item made from the [i]-th piece after the intro. *)
Definition main_chapter (i : nat) (chapter_text : string) : epub_html :=
  let '(chapter_title, chapter_content) :=
    match Py.find chapter_text LFLF with
    | None => ("Chapter " +:+ Py.str_of_nat i, chapter_text)
    | Some title_end =>
        ("Chapter " +:+ Py.take title_end chapter_text,
         Py.strip (Py.drop title_end chapter_text))
    end in
  {| title := chapter_title;
     file_name := "chapter_" +:+ Py.str_of_nat i +:+ ".xhtml";
     content := "<h1>" +:+ chapter_title +:+ "</h1>" +:+ format_story_content chapter_content |}.

Section Packager.

(** Whether the EPUB library takes an item: each item is built and added
    inside a [try] whose handler logs and goes on without it. *)
Variable accepted : epub_html -> bool.

Variables (story_content : string)
          (chapter_titles chapter_descriptions : option (list string))
          (story_category : option string) (story_tags : option (list string)).

(** Lines 477-491. *)
Definition metadata_items : list epub_html :=
  if Py.truthy_opt story_category || truthy_list story_tags
  then [ {| title := "Story Information"; file_name := "metadata.xhtml";
            content := format_metadata_content story_category story_tags |} ]
  else [].

Definition chapter_texts : list string := Py.split story_content (LFLF +:+ "Chapter ").

(** Lines 494-508. *)
Definition intro_items : list epub_html :=
  match chapter_texts with
  | intro :: _ =>
      if Py.truthy (Py.strip intro)
      then [ {| title := "Introduction"; file_name := "intro.xhtml";
                content := "<h1>Introduction</h1>" +:+ format_story_content intro |} ]
      else []
  | [] => []
  end.

(** Lines 511-533. *)
Definition main_items : list epub_html :=
  (fun '(i, chapter_text) => main_chapter i chapter_text)
    <$> enumerate1 (tail chapter_texts).

(** Every item the code tries to add, in order. *)
Definition candidates : list epub_html :=
  metadata_items ++ intro_items ++ main_items.

(** The list [chapters] at line 535. *)
Definition chapters : list epub_html :=
  filter (fun item => accepted item = true) candidates.

(** Lines 443-447. *)
Definition subjects : list string :=
  (match story_category with
   | Some cat => if Py.truthy cat then [cat] else []
   | None => []
   end) ++ default [] story_tags.

(** [create_epub_file] up to the point where the book is complete. *)
Definition create_epub_file : packaging_error + epub_book :=
  match chapters with
  | [] => inl NoValidChapters
  | _ => inr {| dc_subject := subjects;
                dc_description := description_metadata chapter_titles chapter_descriptions;
                spine := chapters |}
  end.

End Packager.

(** Ghost: the fetches of a first page, one per chapter begun. *)
Definition chapter_starts (c : crawl) : list string :=
  fst <$> filter (fun e => e.2 = 1) (fetch_log c).

(** The description lines in the words of the design document: going
    through the chapters in order, one line "<chapter title>: <description>"
    for each chapter whose description is not empty. *)
Fixpoint spec_description_lines (titles descriptions : list string) : list string :=
  match titles, descriptions with
  | t :: titles', d :: descriptions' =>
      if Py.truthy d
      then (t +:+ ": " +:+ d) :: spec_description_lines titles' descriptions'
      else spec_description_lines titles' descriptions'
  | _, _ => []
  end.

(** ** The pages of one chapter *)

(** The paragraphs a page contributes: those of its content block. *)
Definition paragraphs_of (r : response) : list string :=
  default [] (content_div (parsed r)).

(** [chapter_pages web v c pages v' c']: from the head of the page loop in
    state [(v, c)], the pages [pages] are fetched one after the other along
    their "Next Page" links, the last one has no such link, and the loop is
    left in state [(v', c')]. *)
Inductive chapter_pages (web : site)
  : chapter_vars → crawl → list response → chapter_vars → crawl → Prop :=
| last_page v c u r v' c' :
    current_url v = Some u → Py.truthy u = true → web u = Response r →
    next_page_link (parsed r) = None →
    step web (AtPage v) c = Continue (AtPage v') c' →
    chapter_pages web v c [r] v' c'
| more_pages v c u r v1 c1 pages v' c' :
    current_url v = Some u → Py.truthy u = true → web u = Response r →
    next_page_link (parsed r) ≠ None →
    step web (AtPage v) c = Continue (AtPage v1) c1 →
    chapter_pages web v1 c1 pages v' c' →
    chapter_pages web v c (r :: pages) v' c'.

(** The chapter body in the words of the design document: the paragraphs
    of the pages, in page order, each followed by a blank line. *)
Definition spec_chapter_body (pages : list response) : string :=
  foldr (fun p rest => p +:+ LFLF +:+ rest) "" (concat (paragraphs_of <$> pages)).

(** ** Sample pages and sites *)

Module Sample.

Definition url : string := "https://www.literotica.com/s/a-summer".

(** The first page of a story in the Incest/Taboo category. *)
Definition taboo_page : response :=
  {| parsed :=
       {| headline := Some " A Summer ";
          author_link := Some "jane";
          breadcrumb := Some ["Home"; "INCEST/Taboo "; "A Summer"];
          tag_elements := ["romance"; "Incest "; "beach"];
          content_div := Some ["One."; "Two."];
          next_page_link := None;
          series_panel := None |};
     desc_nodes := Some [" Sun and sand. "] |}.


(** The one-page story made of [taboo_page]. *)
Definition web : site := fun u =>
  if String.eqb u url then Response taboo_page else RequestException.

(** The combined text of two chapters, as [download_story] lays it out. *)
Definition two_chapters : string :=
  LFLF +:+ "Chapter 1: Ch1" +:+ LFLF +:+ "A meets B." +:+ LFLF
  +:+ LFLF +:+ "Chapter 2: Ch2" +:+ LFLF +:+ "B leaves." +:+ LFLF.

End Sample.

Module Broken.

Definition url : string := "https://www.literotica.com/s/a-summer".

(** A story whose first page is served and links to a second page that
    is not. *)
Definition web : site := fun u =>
  if String.eqb u url
  then Response
         {| parsed :=
              {| headline := Some "A Summer";
                 author_link := Some "jane";
                 breadcrumb := None;
                 tag_elements := [];
                 content_div := Some ["One."; "Two."];
                 next_page_link :=
                   Some {| a_text := "Next"; a_href := Some "/s/a-summer?page=2" |};
                 series_panel := None |};
            desc_nodes := Some [] |}
  else RequestException.

End Broken.

Module Desync.

Definition url1 : string := "https://www.literotica.com/s/part-1".
Definition url2 : string := "https://www.literotica.com/s/part-2".

(** A series of two one-page chapters; the page of the first one has no
    content block. *)
Definition web : site := fun u =>
  if String.eqb u url1
  then Response
         {| parsed :=
              {| headline := Some "Part 1";
                 author_link := Some "jane";
                 breadcrumb := None;
                 tag_elements := [];
                 content_div := None;
                 next_page_link := None;
                 series_panel :=
                   Some [ {| z_pm := [ {| sp_string := Some "Next Part";
                                          sp_text := "Next Part" |} ];
                             z_t := Some {| a_text := "Part 2";
                                            a_href := Some "/s/part-2" |} |} ] |};
            desc_nodes := Some ["About part 1"] |}
  else if String.eqb u url2
  then Response
         {| parsed :=
              {| headline := Some "Part 2";
                 author_link := Some "jane";
                 breadcrumb := None;
                 tag_elements := [];
                 content_div := Some ["Text of part 2."];
                 next_page_link := None;
                 series_panel := None |};
            desc_nodes := Some ["About part 2"] |}
  else RequestException.

End Desync.

Module Loop.

Definition url : string := "https://www.literotica.com/s/round".

(** A page whose "Next Page" link leads back to the page itself. *)
Definition web : site := fun u =>
  if String.eqb u url
  then Response
         {| parsed :=
              {| headline := Some "Round";
                 author_link := Some "jane";
                 breadcrumb := None;
                 tag_elements := [];
                 content_div := Some ["Again."];
                 next_page_link := Some {| a_text := "Next"; a_href := Some url |};
                 series_panel := None |};
            desc_nodes := Some [] |}
  else RequestException.

End Loop.

Module Dup.

Definition url : string := "https://www.literotica.com/s/by-the-sea".

(** A one-page story whose tag list carries the same tag twice. *)
Definition web : site := fun u =>
  if String.eqb u url
  then Response
         {| parsed :=
              {| headline := Some "By the Sea";
                 author_link := Some "jane";
                 breadcrumb := Some ["Home"; "Romance"];
                 tag_elements := ["romance"; "beach"; "romance"];
                 content_div := Some ["Waves."];
                 next_page_link := None;
                 series_panel := None |};
            desc_nodes := Some [] |}
  else RequestException.

End Dup.

Module TwoPages.

Definition url : string := "https://www.literotica.com/s/a-winter".
Definition url_page2 : string := "https://www.literotica.com/s/a-winter?page=2".

Definition page1 : response :=
  {| parsed :=
       {| headline := Some "A Winter";
          author_link := Some "jane";
          breadcrumb := None;
          tag_elements := [];
          content_div := Some ["One."; "Two."];
          next_page_link :=
            Some {| a_text := "Next"; a_href := Some "/s/a-winter?page=2" |};
          series_panel := None |};
     desc_nodes := Some ["Snow."] |}.

Definition page2 : response :=
  {| parsed :=
       {| headline := Some "A Winter";
          author_link := Some "jane";
          breadcrumb := None;
          tag_elements := [];
          content_div := Some ["Three."];
          next_page_link := None;
          series_panel := None |};
     desc_nodes := Some ["Snow."] |}.

(** A chapter of two pages. *)
Definition web : site := fun u =>
  if String.eqb u url then Response page1
  else if String.eqb u url_page2 then Response page2
  else RequestException.

End TwoPages.

Module Series.

Definition url1 : string := "https://www.literotica.com/s/saga-ch-01".
Definition url2 : string := "https://www.literotica.com/s/saga-ch-02".

Definition series_info (text : string) : story_div :=
  {| z_pm := [ {| sp_string := Some "Series Info"; sp_text := "Series Info" |} ];
     z_t := Some {| a_text := text; a_href := Some "/series/se/1" |} |}.

Definition next_part (href : string) : story_div :=
  {| z_pm := [ {| sp_string := Some "Next Part"; sp_text := "Next Part" |} ];
     z_t := Some {| a_text := "Next"; a_href := Some href |} |}.

Definition chapter (title : string) (panel : list story_div) : response :=
  {| parsed :=
       {| headline := Some title;
          author_link := Some "jane";
          breadcrumb := None;
          tag_elements := [];
          content_div := Some ["Text."];
          next_page_link := None;
          series_panel := Some panel |};
     desc_nodes := Some [] |}.

(** Two chapters of a series; the series link of the first chapter has
    an empty text, that of the second one reads "Saga". *)
Definition web : site := fun u =>
  if String.eqb u url1
  then Response (chapter "Saga Ch. 01" [series_info ""; next_part "/s/saga-ch-02"])
  else if String.eqb u url2
  then Response (chapter "Saga Ch. 02" [series_info "Saga"])
  else RequestException.

(** The same series with the link text "Saga" on both chapters. *)
Definition named : site := fun u =>
  if String.eqb u url1
  then Response (chapter "Saga Ch. 01" [series_info "Saga"; next_part "/s/saga-ch-02"])
  else if String.eqb u url2
  then Response (chapter "Saga Ch. 02" [series_info "Saga, continued"])
  else RequestException.

End Series.

(** ** Invariants of the crawl loop *)

(** The invariant of the loop on the lengths of the lists. *)
Definition lists_inv (c : crawl) : Prop :=
  length (chapter_descriptions c) = length (chapter_starts c)
  ∧ length (chapter_titles c) ≤ length (chapter_descriptions c).

(** The invariant that ties the visited set to the chapters begun: every
    queued URL is non-empty, the page counter stands at 1 between chapters,
    and the visited set has one element per description, plus one while the
    first page of a chapter is still to be fetched. *)
Definition visited_inv (k : control) (c : crawl) : Prop :=
  Forall (fun u => Py.truthy u = true) (chapter_urls c)
  ∧ 1 ≤ current_page c
  ∧ match k with
    | AtQueue =>
        current_page c = 1
        ∧ size (processed_urls c) = length (chapter_descriptions c)
    | AtPage v =>
        match current_url v with
        | Some u =>
            Py.truthy u = true
            ∧ size (processed_urls c) =
                length (chapter_descriptions c)
                + (if bool_decide (current_page c = 1) then 1 else 0)
        | None =>
            current_page c = 1
            ∧ size (processed_urls c) = length (chapter_descriptions c)
        end
    end.

(** The invariant behind the visited set: the first pages fetched so far
    are pairwise distinct and all visited, and the URL of a first page about
    to be fetched is visited and not among them. *)
Definition starts_inv (k : control) (c : crawl) : Prop :=
  NoDup (chapter_starts c)
  ∧ (∀ u, u ∈ chapter_starts c → u ∈ processed_urls c)
  ∧ 1 ≤ current_page c
  ∧ match k with
    | AtQueue => True
    | AtPage v =>
        ∀ u, current_url v = Some u → current_page c = 1 →
             u ∈ processed_urls c ∧ u ∉ chapter_starts c
    end.

(** The invariant behind the series title: a series title, once set, is
    the story title; it is set only after a chapter was finished; and while
    a chapter is being read its number is one more than the number of
    chapters finished. *)
Definition title_inv (k : control) (c : crawl) : Prop :=
  (∀ t, series_title c = Some t → story_title c = t)
  ∧ (series_title c ≠ None → chapter_contents c ≠ [])
  ∧ match k with
    | AtQueue => True
    | AtPage v =>
        is_Some (current_url v) → current_chapter v = length (chapter_contents c) + 1
    end.


(** A closed decidable proposition, settled by evaluation. *)
Ltac by_evaluation := apply (bool_decide_unpack _); vm_compute; exact I.

(** * Further parts of [app/utils.py]

    File names and output paths ([sanitize_filename], the paths of
    [create_epub_file]), further invariants of the crawl loop, the chapter
    marker shared by [download_story] and [create_epub_file], the colours and
    title lines of [generate_cover_image], and the entry of [log_error]. *)

(** ** File names and output paths *)

(** The characters outside the class [[^a-zA-Z0-9._ -]] of line 59. *)
Definition allowed_char (a : ascii) : bool :=
  let n := nat_of_ascii a in
  ((97 <=? n) && (n <=? 122)) || ((65 <=? n) && (n <=? 90))
  || ((48 <=? n) && (n <=? 57))
  || (n =? 46) || (n =? 95) || (n =? 32) || (n =? 45).

(** [re.sub(r'[^a-zA-Z0-9._ -]', '', filename)]: every character of the
    class is removed. *)
Fixpoint sanitize_filename (filename : string) : string :=
  match filename with
  | EmptyString => EmptyString
  | String a rest =>
      if allowed_char a then String a (sanitize_filename rest)
      else sanitize_filename rest
  end.

(** [s.endswith("/")]. *)
Fixpoint ends_with_slash (s : string) : bool :=
  match s with
  | EmptyString => false
  | String a EmptyString => bool_decide (a = "/"%char)
  | String _ rest => ends_with_slash rest
  end.

(** [os.path.join(a, b)] of [posixpath]: an absolute [b] replaces [a]; a
    separator is put in between unless [a] is empty or ends with one. *)
Definition path_join (a b : string) : string :=
  if Py.startswith b "/" then b
  else if negb (Py.truthy a) || ends_with_slash a then a +:+ b
  else a +:+ "/" +:+ b.

(** Line 424: [sanitize_filename(story_author) or "Unknown_Author"]. *)
Definition sanitized_author (story_author : string) : string :=
  if Py.truthy (sanitize_filename story_author)
  then sanitize_filename story_author else "Unknown_Author".

(** Line 425. *)
Definition author_dir (output_directory story_author : string) : string :=
  path_join output_directory (sanitized_author story_author).

(** Line 431: the cover written when none is supplied. *)
Definition default_cover_path (output_directory story_author story_title : string)
  : string :=
  path_join (author_dir output_directory story_author)
            (sanitize_filename story_title +:+ ".jpg").

(** Line 549. *)
Definition epub_path (output_directory story_author story_title : string) : string :=
  path_join (author_dir output_directory story_author)
            (sanitize_filename story_title +:+ ".epub").

(** ** Further invariants of the crawl loop *)

(** The queue holds at most one URL, one that is not in the visited set,
    and holds none while the pages of a chapter are being read. *)
Definition short_queue (c : crawl) : Prop :=
  chapter_urls c = [] ∨ ∃ u, chapter_urls c = [u] ∧ u ∉ processed_urls c.

Definition queue_inv (k : control) (c : crawl) : Prop :=
  match k with
  | AtQueue => short_queue c
  | AtPage v =>
      match current_url v with
      | Some _ => chapter_urls c = []
      | None => short_queue c
      end
  end.

(** Every URL of the crawl other than the start URL begins with "http". *)
Definition crawl_url (url u : string) : Prop :=
  u = url ∨ Py.startswith u "http" = true.

Definition absolute_inv (url : string) (k : control) (c : crawl) : Prop :=
  (∀ e, e ∈ fetch_log c → crawl_url url e.1)
  ∧ (∀ u, u ∈ chapter_urls c → crawl_url url u)
  ∧ match k with
    | AtQueue => True
    | AtPage v => ∀ u, current_url v = Some u → crawl_url url u
    end.

(** Bodies and descriptions: as many of each between two chapters; one
    description ahead once the first page of a chapter has been read. *)
Definition aligned_inv (k : control) (c : crawl) : Prop :=
  1 ≤ current_page c
  ∧ match k with
    | AtQueue =>
        current_page c = 1
        ∧ length (chapter_descriptions c) = length (chapter_contents c)
    | AtPage v =>
        match current_url v with
        | Some u =>
            (Py.truthy u = false → current_page c = 1)
            ∧ length (chapter_descriptions c)
              = length (chapter_contents c)
                + (if bool_decide (current_page c = 1) then 0 else 1)
        | None =>
            current_page c = 1
            ∧ length (chapter_descriptions c) = length (chapter_contents c)
        end
    end.

(** The author line 169 reads on a page. *)
Definition page_author (r : response) : string :=
  match author_link (parsed r) with
  | Some a => Py.strip a
  | None => "Unknown Author"
  end.

(** The category lines 173-179 read on a page when none is set yet. *)
Definition page_category (r : response) : option string :=
  extract_category (start "") r.

(** Where the metadata stand: not read yet, with the first page of the
    start URL still to be fetched (or passed over, the start URL being
    empty); or read from the page [r] served at the start URL. *)
Definition meta_inv (web : site) (url : string) (k : control) (c : crawl) : Prop :=
  (chapter_contents c = [] ∧ current_page c = 1
   ∧ story_author c = "Unknown Author" ∧ story_category c = None ∧ story_tags c = []
   ∧ match k with
     | AtQueue =>
         (chapter_urls c = [url] ∧ url ∉ processed_urls c)
         ∨ (chapter_urls c = [] ∧ Py.truthy url = false)
     | AtPage v =>
         current_url v = Some url ∧ current_chapter v = 1 ∧ chapter_urls c = []
     end)
  ∨ (∃ r, web url = Response r
          ∧ Py.truthy url = true
          ∧ story_author c = page_author r
          ∧ story_category c = page_category r
          ∧ story_tags c = extract_tags r (page_category r)
          ∧ (∀ u, u ∈ chapter_urls c → Py.truthy u = true)
          ∧ 1 ≤ current_page c
          ∧ match k with
            | AtQueue => chapter_contents c ≠ []
            | AtPage v =>
                match current_url v with
                | Some u =>
                    Py.truthy u = true
                    ∧ current_chapter v = length (chapter_contents c) + 1
                    ∧ (chapter_contents c = [] → current_page c ≠ 1)
                | None => chapter_contents c ≠ []
                end
            end).

(** ** The chapter marker *)

(** The separator [create_epub_file] splits the combined text on (line
    494), which is what [download_story] puts before each chapter number
    (line 274). *)
Definition chapter_marker : string := LFLF +:+ "Chapter ".

(** What follows the marker for the chapter numbered [i]. *)
Definition chapter_piece (i : nat) (title content : string) : string :=
  Py.str_of_nat i +:+ ": " +:+ title +:+ LFLF +:+ content.

Definition chapter_pieces (titles contents : list string) : list string :=
  (fun '(i, (title, content)) => chapter_piece i title content)
    <$> enumerate1 (zip titles contents).

(** The separator occurs in the text made of [pieces] joined by it only
    where the join puts it: in each piece followed by the separator the
    first occurrence is the one that follows, and the last piece has none. *)
Fixpoint separable (sep : string) (pieces : list string) : Prop :=
  match pieces with
  | [] => True
  | [y] => Py.find y sep = None
  | x :: rest =>
      Py.find (x +:+ sep) sep = Some (String.length x) ∧ separable sep rest
  end.

(** A text without line feed. *)
Definition no_line_feed (s : string) : Prop :=
  ascii_of_nat 10 ∉ String.list_ascii_of_string s.

(** The EPUB item expected for the chapter numbered [i]. *)
Definition expected_chapter (i : nat) (title content : string) : epub_html :=
  {| title := "Chapter " +:+ Py.str_of_nat i +:+ ": " +:+ title;
     file_name := "chapter_" +:+ Py.str_of_nat i +:+ ".xhtml";
     content := "<h1>" +:+ ("Chapter " +:+ Py.str_of_nat i +:+ ": " +:+ title) +:+ "</h1>"
                +:+ format_story_content (Py.strip (LFLF +:+ content)) |}.


(** ** The cover: colours and title lines of [generate_cover_image] *)

Module Cover.

Definition width : Z := 1200.
Definition height : Z := 1600.

(** Lines 335-339. *)
Definition background_colors : list (Z * Z * Z) :=
  [ (47, 53, 66); (44, 62, 80); (52, 73, 94); (69, 39, 60);
    (81, 46, 95); (45, 52, 54); (33, 33, 33); (25, 42, 86);
    (56, 29, 42); (28, 40, 51) ]%Z.

(** Line 340, for the integer [digest] that the MD5 digest of the title
    stands for. *)
Definition color_index (digest : nat) : nat := digest mod length background_colors.

(** Line 343: [tuple(max(0, c - 20) for c in background_color)]. *)
Definition spine_color (background_color : Z * Z * Z) : Z * Z * Z :=
  let '(r, g, b) := background_color in
  (Z.max 0 (r - 20), Z.max 0 (g - 20), Z.max 0 (b - 20))%Z.

Definition spine_w : Z := 40.

(** Line 362. *)
Definition max_w : Z := (width - (spine_w + 100))%Z.

(** [title.split()]: the maximal runs of characters that are not white
    space. [cur] holds the current run reversed. *)
Definition flush (cur : string) : list string :=
  match cur with EmptyString => [] | _ => [String.rev cur] end.

Fixpoint split_words_go (cur : string) (s : string) : list string :=
  match s with
  | EmptyString => flush cur
  | String a rest =>
      if Py.is_space a then flush cur ++ split_words_go EmptyString rest
      else split_words_go (String a cur) rest
  end.

Definition split_words (s : string) : list string := split_words_go EmptyString s.

Section Wrap.

(** The width [draw.textbbox] gives for a text in the title font. *)
Variable text_width : string → Z.

(** Lines 364-371: one turn of the loop on the pair [(lines, cur)]. *)
Definition wrap_step (st : list string * list string) (w : string)
  : list string * list string :=
  let '(lines, cur) := st in
  let test_line := Py.join " " (cur ++ [w]) in
  if (text_width test_line <=? max_w)%Z
  then (lines, cur ++ [w])
  else (lines ++ [Py.join " " cur], [w]).

(** Lines 363-373. *)
Definition wrap_words (words : list string) : list string :=
  let '(lines, cur) := fold_left wrap_step words ([], []) in
  match cur with
  | [] => lines
  | _ => lines ++ [Py.join " " cur]
  end.

Definition wrap_title (title : string) : list string := wrap_words (split_words title).

(** The same loop on the words of each line, before they are joined. *)
Definition group_step (st : list (list string) * list string) (w : string)
  : list (list string) * list string :=
  let '(groups, cur) := st in
  if (text_width (Py.join " " (cur ++ [w])) <=? max_w)%Z
  then (groups, cur ++ [w])
  else (groups ++ [cur], [w]).

Definition wrap_groups (words : list string) : list (list string) :=
  let '(groups, cur) := fold_left group_step words ([], []) in
  match cur with
  | [] => groups
  | _ => groups ++ [cur]
  end.

(** What the loop keeps true of the lines closed so far and of the line
    being filled. *)
Definition wrap_inv (done_words : list string)
    (st : list (list string) * list string) : Prop :=
  concat st.1 ++ st.2 = done_words
  ∧ (∀ g, g ∈ st.1 → 2 ≤ length g → (text_width (Py.join " " g) ≤ max_w)%Z)
  ∧ (2 ≤ length st.2 → (text_width (Py.join " " st.2) ≤ max_w)%Z)
  ∧ (∀ g, g ∈ st.1 → g = [] →
       ∃ w ws, done_words = w :: ws ∧ (max_w < text_width w)%Z)
  ∧ (st.2 = [] → done_words = [])
  ∧ (∀ w ws, done_words = w :: ws → (max_w < text_width w)%Z → [] ∈ st.1).

End Wrap.

(** Line 382: the abscissa at which a line of width [w] is drawn. *)
Definition line_x (w : Z) : Z := ((width - w) / 2)%Z.

End Cover.

(** ** The error log *)

(** [s * n] for a string. *)
Fixpoint string_mul (s : string) (n : nat) : string :=
  match n with
  | O => EmptyString
  | S m => s +:+ string_mul s m
  end.

(** [sub in s]. *)
Definition contains (s sub : string) : bool :=
  match Py.find s sub with Some _ => true | None => false end.

(** Lines 41-54 of [log_error]: the text appended to [error_log.txt], for
    the time stamp [timestamp]; [None] when the error log is switched
    off. *)
Definition log_error_entry (enable_error_log : bool)
    (timestamp error_message : string) (url : option string) : option string :=
  if enable_error_log
  then
    let message := timestamp +:+ " - " +:+ error_message in
    let message :=
      match url with
      | Some u =>
          if Py.truthy u && negb (contains error_message u)
          then message +:+ LF +:+ "URL: " +:+ u
          else message
      | None => message
      end in
    Some (message +:+ LF +:+ string_mul "-" 50 +:+ LF)
  else None.

(** A word as [str.split()] gives them: not empty, without white space. *)
Definition is_word (w : string) : Prop :=
  w ≠ "" ∧ ∀ a, a ∈ String.list_ascii_of_string w → Py.is_space a = false.

(** Where the story title comes from: until a series title is set, it is
    the title read on the page served at the start URL. *)
Definition headline_inv (web : site) (url : string) (k : control) (c : crawl) : Prop :=
  meta_inv web url k c
  ∧ title_inv k c
  ∧ (fetch_log c = [] → current_page c = 1 ∧ chapter_contents c = [])
  ∧ (chapter_contents c ≠ [] → fetch_log c ≠ [])
  ∧ (fetch_log c ≠ [] → series_title c = None →
     ∀ r, web url = Response r → story_title c = current_title r).

(** * Properties *)

(** ** The model at work *)

Example strip_example : Py.strip ("  Incest/Taboo" +:+ LF +:+ " ") = "Incest/Taboo".
Proof. reflexivity. Qed.

Example split_example :
  Py.split Sample.two_chapters (LFLF +:+ "Chapter ")
  = [""; "1: Ch1" +:+ LFLF +:+ "A meets B." +:+ LFLF;
     "2: Ch2" +:+ LFLF +:+ "B leaves." +:+ LFLF].
Proof. reflexivity. Qed.

Example two_pages_example :
  download_story TwoPages.web 5 TwoPages.url
  = Some {| ret_content :=
              Some (LFLF +:+ "Chapter 1: A Winter" +:+ LFLF
                    +:+ "One." +:+ LFLF +:+ "Two." +:+ LFLF +:+ "Three." +:+ LFLF);
            ret_title := Some "A Winter";
            ret_author := Some "jane";
            ret_category := None;
            ret_tags := Some [];
            ret_chapter_titles := Some ["A Winter"];
            ret_chapter_descriptions := Some ["Snow."] |}.
Proof. vm_compute. reflexivity. Qed.

Example out_of_fuel_example : download_story Loop.web 50 Loop.url = None.
Proof. vm_compute. reflexivity. Qed.

(** ** Strings *)



Lemma prefix_empty (s : string) : String.prefix "" s = true.
Proof. by destruct s. Qed.





(** ** Category and tags *)





(** ** The loop: passes, runs and invariants *)

Section Loop.

Variable web : site.

Lemma after_plus (n m : nat) (k : control) (c : crawl) :
  after web (n + m) k c = '(k', c') ← after web n k c; after web m k' c'.
Proof.
  revert k c. induction n as [|n IH]; intros k c; simpl; [ done | ].
  destruct (step web k c); [ apply IH | done ].
Qed.

Lemma after_first (n : nat) (k k1 : control) (c c1 : crawl) :
  step web k c = Continue k1 c1 → after web (S n) k c = after web n k1 c1.
Proof. intros H. simpl. by rewrite H. Qed.

Lemma after_last (n : nat) (k k1 k2 : control) (c c1 c2 : crawl) :
  after web n k c = Some (k1, c1) →
  step web k1 c1 = Continue k2 c2 →
  after web (S n) k c = Some (k2, c2).
Proof.
  intros Hn Hs. replace (S n) with (n + 1) by lia.
  rewrite after_plus, Hn. simpl. by rewrite Hs.
Qed.

(** A property of the state that every pass keeps holds all along. *)
Lemma after_invariant (P : control → crawl → Prop) :
  (∀ k c k' c', P k c → step web k c = Continue k' c' → P k' c') →
  ∀ n k c k' c', P k c → after web n k c = Some (k', c') → P k' c'.
Proof.
  intros Hstep. induction n as [|n IH]; intros k c k' c' HP; simpl.
  - by intros [= <- <-].
  - destruct (step web k c) as [k1 c1|] eqn:E; [ | done ].
    apply IH. by eapply Hstep.
Qed.

(** A run that returns does so from a state reached by passes. *)
Lemma run_returns (fuel : nat) (k : control) (c : crawl) (ret : returned) :
  run web fuel k c = Some ret →
  ∃ n k' c', n < fuel ∧ after web n k c = Some (k', c') ∧ step web k' c' = Return ret.
Proof.
  revert k c. induction fuel as [|fuel IH]; intros k c; simpl; [ done | ].
  destruct (step web k c) as [k1 c1|ret1] eqn:E.
  - intros H. destruct (IH _ _ H) as (n & k' & c' & Hn & Ha & Hs).
    exists (S n), k', c'. simpl. rewrite E. split; [ lia | done ].
  - intros [= ->]. exists 0, k, c. split; [ lia | done ].
Qed.

(** A state that returns is reached by every run with enough fuel. *)
Lemma run_reaches (n : nat) (k k' : control) (c c' : crawl) (ret : returned) :
  after web n k c = Some (k', c') →
  step web k' c' = Return ret →
  ∀ fuel, n < fuel → run web fuel k c = Some ret.
Proof.
  revert k c. induction n as [|n IH]; intros k c; simpl.
  - intros [= <- <-] Hs [|fuel] Hf; [ lia | ]. simpl. by rewrite Hs.
  - destruct (step web k c) as [k1 c1|] eqn:E; [ | done ].
    intros Ha Hs [|fuel] Hf; [ lia | ]. simpl. rewrite E.
    eapply IH; eauto with lia.
Qed.

Lemma reachable_invariant (url : string) (P : control → crawl → Prop) :
  P AtQueue (start url) →
  (∀ k c k' c', P k c → step web k c = Continue k' c' → P k' c') →
  ∀ k c, reachable web url k c → P k c.
Proof.
  intros H0 Hstep k c [n Hn]. by eapply (after_invariant P Hstep n).
Qed.

End Loop.

(** ** What one pass does *)

Lemma step_continue (web : site) (k k' : control) (c c' : crawl) :
  step web k c = Continue k' c' →
  match k with
  | AtQueue =>
      ∃ u rest, chapter_urls c = u :: rest ∧
        if bool_decide (u ∈ processed_urls c)
        then k' = AtQueue ∧ c' = pop_rest c rest
        else k' = AtPage {| current_url := Some u;
                            current_chapter := length (chapter_contents c) + 1;
                            current_chapter_content := "" |}
             ∧ c' = mark_processed (pop_rest c rest) u
  | AtPage v =>
      (Py.truthy_opt (current_url v) = false ∧ k' = AtQueue ∧ c' = c)
      ∨ (∃ u r, current_url v = Some u ∧ Py.truthy u = true
                ∧ web u = Response r
                ∧ process_page (log_fetch c u) v r = Some (k', c'))
  end.
Proof.
  destruct k as [|v]; simpl.
  - destruct (chapter_urls c) as [|u rest]; [ done | ].
    intros H. exists u, rest. split; [ done | ].
    by case_bool_decide; injection H as <- <-.
  - destruct (current_url v) as [u|] eqn:Eu; [ | intros [= <- <-]; by left ].
    destruct (Py.truthy u) eqn:Et; [ | intros [= <- <-]; by left ].
    destruct (web u) as [|r] eqn:Ew; [ done | ].
    destruct (process_page _ v r) as [[k1 c1]|] eqn:Ep; [ | done ].
    intros [= <- <-]. right. by exists u, r.
Qed.

Lemma process_page_some (c c' : crawl) (v : chapter_vars) (r : response) (k' : control) :
  process_page c v r = Some (k', c') →
  ∃ c1,
    (if bool_decide (current_page c = 1)
     then ∃ d, extract_description r = Some d ∧ c1 = first_page c v r d
     else c1 = c)
    ∧ match next_page_link (parsed r) with
      | Some link =>
          ∃ next_url, a_href link = Some next_url
            ∧ k' = AtPage {| current_url := Some (absolute next_url);
                             current_chapter := current_chapter v;
                             current_chapter_content := (story_block c1 v r).2 |}
            ∧ c' = turn_page (story_block c1 v r).1
      | None =>
          k' = AtPage {| current_url := None;
                         current_chapter := current_chapter v;
                         current_chapter_content := (story_block c1 v r).2 |}
          ∧ end_chapter (story_block c1 v r).1 (story_block c1 v r).2 r = Some c'
      end.
Proof.
  unfold process_page. intros H.
  destruct (if bool_decide (current_page c = 1)
            then first_page c v r <$> extract_description r else Some c)
    as [c1|] eqn:E1; [ | done ].
  simpl in H. exists c1. split.
  - case_bool_decide; [ | by injection E1 ].
    destruct (extract_description r) as [d|]; [ | done ].
    injection E1 as <-. by exists d.
  - destruct (story_block c1 v r) as [c2 content] eqn:E2. simpl.
    destruct (next_page_link (parsed r)) as [link|].
    + destruct (a_href link) as [next_url|]; [ | done ].
      injection H as <- <-. by exists next_url.
    + destruct (end_chapter c2 content r) as [c3|]; [ | done ].
      by injection H as <- <-.
Qed.

(** The fields a finished chapter leaves as they were, and those it sets. *)
Lemma end_chapter_some (c c' : crawl) (content : string) (r : response) :
  end_chapter c content r = Some c' →
  story_author c' = story_author c
  ∧ story_category c' = story_category c
  ∧ story_tags c' = story_tags c
  ∧ processed_urls c' = processed_urls c
  ∧ chapter_titles c' = chapter_titles c
  ∧ chapter_contents c' = chapter_contents c ++ [content]
  ∧ chapter_descriptions c' = chapter_descriptions c
  ∧ current_page c' = 1
  ∧ fetch_log c' = fetch_log c.
Proof.
  unfold end_chapter. intros H.
  destruct (match series_panel (parsed r) with
            | Some story_links => find_next_part story_links
            | None => Some None
            end) as [next|]; [ | done ].
  by injection H as <-.
Qed.

Lemma story_block_fields (c : crawl) (v : chapter_vars) (r : response) :
  story_title (story_block c v r).1 = story_title c
  ∧ story_author (story_block c v r).1 = story_author c
  ∧ story_category (story_block c v r).1 = story_category c
  ∧ story_tags (story_block c v r).1 = story_tags c
  ∧ chapter_urls (story_block c v r).1 = chapter_urls c
  ∧ processed_urls (story_block c v r).1 = processed_urls c
  ∧ series_title (story_block c v r).1 = series_title c
  ∧ chapter_contents (story_block c v r).1 = chapter_contents c
  ∧ chapter_descriptions (story_block c v r).1 = chapter_descriptions c
  ∧ current_page (story_block c v r).1 = current_page c
  ∧ fetch_log (story_block c v r).1 = fetch_log c.
Proof. unfold story_block. by destruct (content_div (parsed r)). Qed.

(** The title list grows by this chapter's title exactly on a first page
    that has a content block. *)
Lemma story_block_titles (c : crawl) (v : chapter_vars) (r : response) :
  chapter_titles (story_block c v r).1 =
    match content_div (parsed r) with
    | Some _ =>
        if bool_decide (current_page c = 1)
        then chapter_titles c ++ [current_title r] else chapter_titles c
    | None => chapter_titles c
    end.
Proof. unfold story_block. by destruct (content_div (parsed r)). Qed.

Lemma story_block_content (c : crawl) (v : chapter_vars) (r : response) :
  (story_block c v r).2 =
    append_paragraphs (current_chapter_content v) (default [] (content_div (parsed r))).
Proof. unfold story_block. by destruct (content_div (parsed r)). Qed.

(** ** Failure *)

(** The exceptions of the model: [html.fromstring] fails on a first page, the
    "Next Page" link has no [href], or the "Next Part" link found at the end
    of the chapter has none. *)
Lemma end_chapter_raises (c : crawl) (content : string) (r : response) :
  end_chapter c content r = None ↔
  ∃ story_links, series_panel (parsed r) = Some story_links
                 ∧ find_next_part story_links = None.
Proof.
  unfold end_chapter.
  destruct (series_panel (parsed r)) as [story_links|]; simpl.
  - destruct (find_next_part story_links) as [next|] eqn:E; simpl.
    + split; [ done | ]. intros (l & [= <-] & H). congruence.
    + split; [ | done ]. intros _. by exists story_links.
  - split; [ done | ]. by intros (l & H & _).
Qed.

Lemma process_page_raises (c : crawl) (v : chapter_vars) (r : response) :
  process_page c v r = None ↔
  (current_page c = 1 ∧ desc_nodes r = None)
  ∨ (∃ link, next_page_link (parsed r) = Some link ∧ a_href link = None)
  ∨ (next_page_link (parsed r) = None
     ∧ ∃ story_links, series_panel (parsed r) = Some story_links
                      ∧ find_next_part story_links = None).
Proof.
  assert (Hrest : ∀ c1,
            (let '(c2, content) := story_block c1 v r in
             match next_page_link (parsed r) with
             | Some link =>
                 next_url ← a_href link;
                 Some (AtPage {| current_url := Some (absolute next_url);
                                 current_chapter := current_chapter v;
                                 current_chapter_content := content |},
                       turn_page c2)
             | None =>
                 c3 ← end_chapter c2 content r;
                 Some (AtPage {| current_url := None;
                                 current_chapter := current_chapter v;
                                 current_chapter_content := content |},
                       c3)
             end) = None ↔
            (∃ link, next_page_link (parsed r) = Some link ∧ a_href link = None)
            ∨ (next_page_link (parsed r) = None
               ∧ ∃ story_links, series_panel (parsed r) = Some story_links
                                ∧ find_next_part story_links = None)).
  { intros c1. destruct (story_block c1 v r) as [c2 content].
    destruct (next_page_link (parsed r)) as [link|].
    - destruct (a_href link) as [next_url|] eqn:Eh; simpl.
      + split; [ done | ]. intros [(l & [= <-] & H) | [H _]]; congruence.
      + split; [ | done ]. intros _. left. by exists link.
    - pose proof (end_chapter_raises c2 content r) as Hend.
      destruct (end_chapter c2 content r) as [c3|]; simpl.
      + split; [ done | ]. intros [(l & H & _) | [_ H]]; [ done | ].
        by apply Hend in H.
      + split; [ | done ]. intros _. right. split; [ done | ]. by apply Hend. }
  unfold process_page, extract_description.
  case_bool_decide as Hp.
  - destruct (desc_nodes r) as [nodes|]; simpl.
    + rewrite Hrest. split; [ by right | ]. by intros [[_ ?] | H].
    + split; [ | done ]. intros _. by left.
  - simpl. rewrite Hrest. split; [ by right | ]. by intros [[? _] | H].
Qed.

Section Failure.

Variable web : site.

Lemma after_earlier (n m : nat) (k : control) (c : crawl) :
  is_Some (after web n k c) → m ≤ n → is_Some (after web m k c).
Proof.
  intros Hn Hm. replace n with (m + (n - m)) in Hn by lia.
  rewrite after_plus in Hn. destruct (after web m k c); [ done | ].
  by destruct Hn.
Qed.

Lemma run_out_of_fuel (fuel : nat) (k : control) (c : crawl) :
  is_Some (after web fuel k c) → run web fuel k c = None.
Proof.
  revert k c. induction fuel as [|fuel IH]; intros k c; simpl; [ done | ].
  destruct (step web k c); [ apply IH | by intros [] ].
Qed.

(** The pass that fetches a page which is not served, or whose processing
    raises, returns the seven [None]s. *)
Lemma step_fails (v : chapter_vars) (c : crawl) (u : string) :
  current_url v = Some u →
  Py.truthy u = true →
  (web u = RequestException
   ∨ ∃ r, web u = Response r ∧ process_page (log_fetch c u) v r = None) →
  step web (AtPage v) c = Return all_none.
Proof.
  intros Hu Ht H. simpl. rewrite Hu, Ht.
  destruct H as [-> | (r & -> & ->)]; done.
Qed.

(** C1. When the crawl comes to a fetch that raises a network error, or to
    a page whose processing raises, [download_story] returns the seven
    [None]s: it does so for every bound on the passes that lets the crawl
    get that far, and it returns nothing else for any bound, so nothing of
    the chapters already read is handed back. *)
Theorem failure_returns_all_none
    (url : string) (n : nat) (v : chapter_vars) (c : crawl) (u : string) :
  after web n AtQueue (start url) = Some (AtPage v, c) →
  current_url v = Some u →
  Py.truthy u = true →
  (web u = RequestException
   ∨ ∃ r, web u = Response r ∧ process_page (log_fetch c u) v r = None) →
  (∀ fuel, n < fuel → download_story web fuel url = Some all_none)
  ∧ (∀ fuel ret, download_story web fuel url = Some ret →
       ret = all_none
       ∧ ret_content ret = None ∧ ret_title ret = None ∧ ret_author ret = None
       ∧ ret_category ret = None ∧ ret_tags ret = None
       ∧ ret_chapter_titles ret = None ∧ ret_chapter_descriptions ret = None).
Proof.
  intros Hn Hu Ht Hfail.
  pose proof (step_fails v c u Hu Ht Hfail) as Hs.
  assert (Hall : ∀ fuel, n < fuel → download_story web fuel url = Some all_none).
  { intros fuel Hf. by eapply run_reaches. }
  split; [ exact Hall | ].
  intros fuel ret Hret.
  destruct (decide (n < fuel)) as [Hf|Hf].
  - rewrite (Hall fuel Hf) in Hret. by injection Hret as <-.
  - unfold download_story in Hret. rewrite run_out_of_fuel in Hret; [ done | ].
    apply (after_earlier n); [ by rewrite Hn | lia ].
Qed.

End Failure.

Lemma failure_returns_all_none_witness :
  download_story Broken.web 3 Broken.url = Some all_none.
Proof.
  eapply (failure_returns_all_none Broken.web Broken.url 2);
    [ vm_compute; reflexivity | reflexivity | reflexivity | left; reflexivity | lia ].
Defined.

(** ** Titles, descriptions and chapter starts *)

Lemma chapter_starts_log_fetch (c : crawl) (u : string) :
  chapter_starts (log_fetch c u) =
    chapter_starts c ++ (if bool_decide (current_page c = 1) then [u] else []).
Proof.
  unfold chapter_starts. simpl. rewrite filter_app, fmap_app. f_equal.
  rewrite filter_cons. simpl. case_bool_decide; case_decide; done.
Qed.

(** What a page that is processed without an exception adds to the two
    lists: one description on a first page, one title on a first page that
    has a content block, nothing on the other pages. *)
Lemma process_page_lists (c c' : crawl) (v : chapter_vars) (r : response) (k' : control) :
  process_page c v r = Some (k', c') →
  (if bool_decide (current_page c = 1)
   then ∃ d, extract_description r = Some d
             ∧ chapter_descriptions c' = chapter_descriptions c ++ [d]
   else chapter_descriptions c' = chapter_descriptions c)
  ∧ chapter_titles c' =
      chapter_titles c ++
        (if bool_decide (current_page c = 1)
         then match content_div (parsed r) with
              | Some _ => [current_title r]
              | None => []
              end
         else []).
Proof.
  intros H. apply process_page_some in H as (c1 & H1 & H2).
  pose proof (story_block_fields c1 v r) as (_ & _ & _ & _ & _ & _ & _ & _ & Hd & _).
  pose proof (story_block_titles c1 v r) as Ht.
  assert (chapter_descriptions c' = chapter_descriptions c1
          ∧ chapter_titles c' = chapter_titles (story_block c1 v r).1) as [Hd' Ht'].
  { destruct (next_page_link (parsed r)) as [link|].
    - destruct H2 as (next_url & _ & _ & ->). simpl. by rewrite Hd.
    - destruct H2 as [_ H2]. apply end_chapter_some in H2.
      destruct H2 as (_ & _ & _ & _ & Ht2 & _ & Hd2 & _). by rewrite Hd2, Ht2, Hd. }
  rewrite Hd', Ht', Ht. clear Hd' Ht' Ht Hd H2.
  case_bool_decide as Hp.
  - destruct H1 as (d & Hdesc & ->). simpl. split; [ by exists d | ].
    rewrite bool_decide_eq_true_2 by done.
    destruct (content_div (parsed r)); [ done | by rewrite app_nil_r ].
  - subst c1. split; [ done | ].
    rewrite bool_decide_eq_false_2 by done.
    destruct (content_div (parsed r)); by rewrite app_nil_r.
Qed.

(** Processing a page makes no fetch of its own. *)
Lemma process_page_log (c c' : crawl) (v : chapter_vars) (r : response) (k' : control) :
  process_page c v r = Some (k', c') → fetch_log c' = fetch_log c.
Proof.
  intros H. apply process_page_some in H as (c1 & H1 & H2).
  pose proof (story_block_fields c1 v r) as (_&_&_&_&_&_&_&_&_&_& Hl).
  assert (fetch_log c1 = fetch_log c) as <-.
  { case_bool_decide; [ by destruct H1 as (d & _ & ->) | by subst c1 ]. }
  destruct (next_page_link (parsed r)) as [link|].
  - destruct H2 as (next_url & _ & _ & ->). by simpl.
  - destruct H2 as [_ H2]. apply end_chapter_some in H2.
    destruct H2 as (_&_&_&_&_&_&_&_& ->). done.
Qed.

Lemma lists_inv_step (web : site) (k k' : control) (c c' : crawl) :
  lists_inv c → step web k c = Continue k' c' → lists_inv c'.
Proof.
  intros [Hd Ht] Hs. apply step_continue in Hs. destruct k as [|v].
  - destruct Hs as (u & rest & _ & Hs).
    case_bool_decide; destruct Hs as [_ ->]; done.
  - destruct Hs as [(_ & _ & ->) | (u & r & _ & _ & _ & Hp)]; [ done | ].
    pose proof (process_page_log _ _ _ _ _ Hp) as Hlog.
    apply process_page_lists in Hp as [Hd' Ht'].
    unfold lists_inv, chapter_starts. rewrite Hlog.
    fold (chapter_starts (log_fetch c u)). rewrite chapter_starts_log_fetch.
    rewrite Ht'. simpl in *. rewrite !length_app.
    case_bool_decide.
    + destruct Hd' as (d & _ & ->). rewrite length_app. simpl.
      destruct (content_div (parsed r)); simpl; lia.
    + rewrite Hd'. simpl. lia.
Qed.

(** ** Queue and visited set *)

Lemma absolute_truthy (next_url : string) : Py.truthy (absolute next_url) = true.
Proof.
  unfold absolute, Py.startswith. destruct next_url; [ done | ].
  by case_match.
Qed.

Lemma find_next_part_absolute (story_links : list story_div) (next_url : string) :
  find_next_part story_links = Some (Some next_url) →
  ∃ href, next_url = absolute href.
Proof.
  induction story_links as [|d rest IH]; simpl; [ done | ].
  destruct (z_t d) as [link|]; [ | done ].
  destruct (is_next_part d); [ | done ].
  destruct (a_href link) as [href|]; [ | done ].
  intros [= <-]. by exists href.
Qed.

(** A finished chapter adds to the queue at most the next part, made
    absolute, and only if it is not in the visited set. *)
Lemma end_chapter_queue (c c' : crawl) (content : string) (r : response) :
  end_chapter c content r = Some c' →
  chapter_urls c' = chapter_urls c
  ∨ ∃ href, chapter_urls c' = chapter_urls c ++ [absolute href]
            ∧ absolute href ∉ processed_urls c.
Proof.
  unfold end_chapter. intros H.
  destruct (series_panel (parsed r)) as [story_links|]; simpl in H.
  - destruct (find_next_part story_links) as [[next_url|]|] eqn:E; simpl in H;
      [ | by injection H as <-; left | done ].
    injection H as <-. simpl.
    case_bool_decide; [ by left | right ].
    apply find_next_part_absolute in E as [href ->]. by exists href.
  - injection H as <-. by left.
Qed.

(** Queue, visited set, page counter and chapter contents after a page. *)
Lemma process_page_control (c c' : crawl) (v : chapter_vars) (r : response) (k' : control) :
  process_page c v r = Some (k', c') →
  processed_urls c' = processed_urls c
  ∧ match next_page_link (parsed r) with
    | Some link =>
        ∃ next_url content, a_href link = Some next_url
          ∧ k' = AtPage {| current_url := Some (absolute next_url);
                           current_chapter := current_chapter v;
                           current_chapter_content := content |}
          ∧ current_page c' = current_page c + 1
          ∧ chapter_urls c' = chapter_urls c
          ∧ chapter_contents c' = chapter_contents c
    | None =>
        ∃ content,
          k' = AtPage {| current_url := None;
                         current_chapter := current_chapter v;
                         current_chapter_content := content |}
          ∧ current_page c' = 1
          ∧ chapter_contents c' = chapter_contents c ++ [content]
          ∧ (chapter_urls c' = chapter_urls c
             ∨ ∃ href, chapter_urls c' = chapter_urls c ++ [absolute href]
                       ∧ absolute href ∉ processed_urls c)
    end.
Proof.
  intros H. apply process_page_some in H as (c1 & H1 & H2).
  pose proof (story_block_fields c1 v r) as (_&_&_&_& Hq & Hv & _ & Hc & _ & Hp & _).
  assert (chapter_urls c1 = chapter_urls c ∧ processed_urls c1 = processed_urls c
          ∧ chapter_contents c1 = chapter_contents c
          ∧ current_page c1 = current_page c) as (Hq1 & Hv1 & Hc1 & Hp1).
  { case_bool_decide; [ by destruct H1 as (d & _ & ->) | by subst c1 ]. }
  destruct (next_page_link (parsed r)) as [link|].
  - destruct H2 as (next_url & Hh & -> & ->). simpl.
    split; [ congruence | ]. exists next_url, (story_block c1 v r).2.
    repeat split; congruence.
  - destruct H2 as [-> H2].
    pose proof (end_chapter_queue _ _ _ _ H2) as Hq2.
    apply end_chapter_some in H2 as (_&_&_& Hv2 & _ & Hc2 & _ & Hp2 & _).
    split; [ congruence | ]. exists (story_block c1 v r).2.
    repeat split; [ done | congruence | ].
    rewrite Hq, Hq1, Hv, Hv1 in Hq2. exact Hq2.
Qed.

Lemma visited_inv_step (web : site) (k k' : control) (c c' : crawl) :
  visited_inv k c → step web k c = Continue k' c' → visited_inv k' c'.
Proof.
  intros (Hq & Hp & Hk) Hs. apply step_continue in Hs. destruct k as [|v].
  - destruct Hs as (u & rest & Hu & Hs). rewrite Hu in Hq.
    apply Forall_cons in Hq as [Hu1 Hrest]. destruct Hk as [Hp1 Hsz].
    case_bool_decide as Hin; destruct Hs as [-> ->]; simpl.
    + done.
    + repeat split; [ done | done | done | ].
      rewrite bool_decide_eq_true_2 by done. simpl.
      rewrite size_union by set_solver. rewrite size_singleton. lia.
  - destruct Hs as [(Hf & -> & ->) | (u & r & Hu & Ht & _ & Hpp)].
    + destruct (current_url v) as [u|]; [ | done ].
      destruct Hk as [Ht _]. simpl in Hf. congruence.
    + rewrite Hu in Hk. destruct Hk as [_ Hsz].
      pose proof (process_page_lists _ _ _ _ _ Hpp) as [Hd _].
      apply process_page_control in Hpp as [Hv Hnext]. simpl in *.
      destruct (next_page_link (parsed r)) as [link|].
      * destruct Hnext as (next_url & content & _ & -> & Hp' & Hq' & _).
        repeat split; simpl; [ by rewrite Hq' | lia | apply absolute_truthy | ].
        rewrite Hv, Hp'. rewrite (bool_decide_eq_false_2 (_ + 1 = 1)) by lia.
        case_bool_decide; [ destruct Hd as (d & _ & Hd) | ];
          rewrite Hd, ?length_app; simpl; lia.
      * destruct Hnext as (content & -> & Hp' & _ & Hq').
        repeat split; simpl; [ | lia | done | ].
        -- destruct Hq' as [-> | (href & -> & _)]; [ done | ].
           apply Forall_app. split; [ done | ].
           apply Forall_singleton, absolute_truthy.
        -- rewrite Hv.
           case_bool_decide; [ destruct Hd as (d & _ & Hd) | ];
             rewrite Hd, ?length_app; simpl; lia.
Qed.

Lemma description_parts_length (titles descriptions : list string) :
  length (description_parts titles descriptions)
  ≤ min (length titles) (length descriptions).
Proof.
  unfold description_parts. rewrite length_fmap.
  etrans; [ apply length_filter | ]. by rewrite length_zip_with.
Qed.

(** C10. At every loop head of the crawl: the description list has one
    entry per chapter begun (one per fetch of a first page, and, between
    chapters, one per visited URL), and the title list is no longer than it.
    A page processed without exception adds one description exactly when it
    is a first page, and one title exactly when it is a first page with a
    content block. The packager pairs titles and descriptions position by
    position up to the shorter list, and on lists of different lengths it
    can put a title next to the description of another chapter: on the
    sample series the line reads "Part 2: About part 1". *)
Theorem titles_descriptions_invariant (web : site) (url : string) (k : control) (c : crawl) :
  reachable web url k c →
  length (chapter_descriptions c) = length (chapter_starts c)
  ∧ length (chapter_titles c) ≤ length (chapter_descriptions c)
  ∧ (url ≠ "" → k = AtQueue →
       length (chapter_descriptions c) = size (processed_urls c))
  ∧ (∀ v r k' c',
       process_page c v r = Some (k', c') →
       (if bool_decide (current_page c = 1)
        then ∃ d, extract_description r = Some d
                  ∧ chapter_descriptions c' = chapter_descriptions c ++ [d]
        else chapter_descriptions c' = chapter_descriptions c)
       ∧ chapter_titles c' =
           chapter_titles c ++
             (if bool_decide (current_page c = 1)
              then match content_div (parsed r) with
                   | Some _ => [current_title r]
                   | None => []
                   end
              else []))
  ∧ (∀ titles descriptions,
       length (description_parts titles descriptions)
       ≤ min (length titles) (length descriptions))
  ∧ (∃ titles descriptions,
       ret_chapter_titles <$> download_story Desync.web 7 Desync.url1 = Some (Some titles)
       ∧ ret_chapter_descriptions <$> download_story Desync.web 7 Desync.url1
         = Some (Some descriptions)
       ∧ titles = ["Part 2"]
       ∧ descriptions = ["About part 1"; "About part 2"]
       ∧ description_metadata (Some titles) (Some descriptions)
         = Some "Part 2: About part 1").
Proof.
  intros Hr.
  assert (lists_inv c) as [Hd Ht].
  { refine (reachable_invariant web url (fun _ c => lists_inv c) _ _ k c Hr).
    - by split.
    - intros ? ? ? ?. apply lists_inv_step. }
  split; [ done | ]. split; [ done | ]. split; [ | split; [ | split ] ].
  - intros Hurl ->.
    assert (visited_inv AtQueue c) as (_ & _ & _ & Hsz).
    { apply (reachable_invariant web url visited_inv); [ | | done ].
      - split; [ apply Forall_singleton; by destruct url | ].
        simpl. split; [ lia | ]. split; [ done | reflexivity ].
      - intros ? ? ? ?. apply visited_inv_step. }
    done.
  - intros v r k' c'. apply process_page_lists.
  - apply description_parts_length.
  - exists ["Part 2"], ["About part 1"; "About part 2"].
    repeat split; vm_compute; reflexivity.
Qed.

Lemma titles_descriptions_invariant_witness :
  ∃ c, after Desync.web 6 AtQueue (start Desync.url1) = Some (AtQueue, c)
       ∧ length (chapter_titles c) = 1
       ∧ length (chapter_descriptions c) = 2
       ∧ length (chapter_descriptions c) = size (processed_urls c).
Proof.
  eexists. split; [ vm_compute; reflexivity | ].
  split; [ reflexivity | ]. split; [ reflexivity | ].
  eapply (titles_descriptions_invariant Desync.web Desync.url1 AtQueue);
    [ exists 6; vm_compute; reflexivity | discriminate | reflexivity ].
Defined.

(** ** Visited locations *)

Lemma starts_inv_step (web : site) (k k' : control) (c c' : crawl) :
  starts_inv k c → step web k c = Continue k' c' → starts_inv k' c'.
Proof.
  intros (Hnd & Hsub & Hp & Hk) Hs. apply step_continue in Hs. destruct k as [|v].
  - destruct Hs as (u & rest & _ & Hs).
    case_bool_decide as Hin; destruct Hs as [-> ->]; [ done | ].
    split; [ done | ]. split; [ | split; [ done | ] ]; simpl.
    + intros u' Hu'. apply Hsub in Hu'. set_solver.
    + intros u' [= <-] _. split; [ set_solver | ].
      intros Hu. by apply Hin, Hsub.
  - destruct Hs as [(_ & -> & ->) | (u & r & Hu & _ & _ & Hpp)]; [ done | ].
    pose proof (process_page_log _ _ _ _ _ Hpp) as Hlog.
    apply process_page_control in Hpp as [Hv Hnext]. simpl in Hv, Hnext.
    assert (chapter_starts c' =
              chapter_starts c ++ (if bool_decide (current_page c = 1) then [u] else []))
      as Hst.
    { rewrite <- chapter_starts_log_fetch. unfold chapter_starts. by rewrite Hlog. }
    assert (NoDup (chapter_starts c')
            ∧ ∀ u', u' ∈ chapter_starts c' → u' ∈ processed_urls c') as [Hnd' Hsub'].
    { rewrite Hst, Hv. case_bool_decide as Hp1.
      - destruct (Hk u Hu Hp1) as [Hin Hnew]. split.
        + apply NoDup_app. repeat split; [ done | | apply NoDup_singleton ].
          intros x Hx Hxu%list_elem_of_singleton. by subst x.
        + intros u' [Hu'|Hu'%list_elem_of_singleton]%elem_of_app;
            [ by apply Hsub | by subst u' ].
      - by rewrite app_nil_r. }
    split; [ done | ]. split; [ done | ].
    destruct (next_page_link (parsed r)) as [link|].
    + destruct Hnext as (next_url & content & _ & -> & Hp' & _).
      split; [ lia | ]. simpl. intros u' _ Hp1. lia.
    + destruct Hnext as (content & -> & Hp' & _).
      split; [ lia | ]. simpl. done.
Qed.

(** C2, amended. The visited set guards the chapter starts: no URL is
    fetched twice as the first page of a chapter, and every URL so fetched
    is in the visited set; a queue entry that is in the visited set is
    dropped by a pass that fetches nothing; and a next part that is in the
    visited set when its chapter ends is not added to the queue. *)
Theorem visited_chapter_starts (web : site) (url : string) (k : control) (c : crawl) :
  reachable web url k c →
  NoDup (chapter_starts c)
  ∧ (∀ u, u ∈ chapter_starts c → u ∈ processed_urls c)
  ∧ (∀ c0 u rest,
       chapter_urls c0 = u :: rest → u ∈ processed_urls c0 →
       step web AtQueue c0 = Continue AtQueue (pop_rest c0 rest)
       ∧ fetch_log (pop_rest c0 rest) = fetch_log c0
       ∧ processed_urls (pop_rest c0 rest) = processed_urls c0)
  ∧ (∀ c0 content r c' story_links next_url,
       series_panel (parsed r) = Some story_links →
       find_next_part story_links = Some (Some next_url) →
       next_url ∈ processed_urls c0 →
       end_chapter c0 content r = Some c' →
       chapter_urls c' = chapter_urls c0).
Proof.
  intros Hr.
  assert (starts_inv k c) as (Hnd & Hsub & _).
  { apply (reachable_invariant web url starts_inv); [ | | done ].
    - split; [ apply NoDup_nil_2 | ]. split; [ | done ].
      intros u Hu. by apply elem_of_nil in Hu.
    - intros ? ? ? ?. apply starts_inv_step. }
  split; [ done | ]. split; [ done | ]. split.
  - intros c0 u rest Hq Hin. simpl. rewrite Hq.
    by rewrite bool_decide_eq_true_2.
  - intros c0 content r c' story_links next_url Hpanel Hnext Hin.
    unfold end_chapter. rewrite Hpanel, Hnext. simpl.
    intros [= <-]. simpl. by rewrite bool_decide_eq_true_2.
Qed.

Lemma visited_chapter_starts_witness :
  ∃ c, after Desync.web 6 AtQueue (start Desync.url1) = Some (AtQueue, c)
       ∧ chapter_starts c = [Desync.url1; Desync.url2]
       ∧ NoDup (chapter_starts c).
Proof.
  eexists. split; [ vm_compute; reflexivity | ]. split; [ reflexivity | ].
  eapply (visited_chapter_starts Desync.web Desync.url1 AtQueue).
  exists 6. vm_compute. reflexivity.
Defined.

(** C2 as stated fails: a "Next Page" link is followed without a look at
    the visited set. On the sample page that links to itself, the URL is in
    the visited set and has been fetched once after two passes, and the
    third pass fetches it again. *)
Lemma visited_location_fetched_again :
  (∃ k c, after Loop.web 2 AtQueue (start Loop.url) = Some (k, c)
          ∧ Loop.url ∈ processed_urls c
          ∧ fetch_log c = [(Loop.url, 1)])
  ∧ (∃ k c, after Loop.web 3 AtQueue (start Loop.url) = Some (k, c)
            ∧ Loop.url ∈ processed_urls c
            ∧ fetch_log c = [(Loop.url, 1); (Loop.url, 2)]).
Proof.
  split; do 2 eexists; (split; [ vm_compute; reflexivity | ]);
    (split; [ by_evaluation | reflexivity ]).
Qed.

(** ** Duplicate tags *)






(** ** The description field *)

Lemma description_parts_spec (titles descriptions : list string) :
  description_parts titles descriptions = spec_description_lines titles descriptions.
Proof.
  unfold description_parts. revert descriptions.
  induction titles as [|t titles IH]; intros [|d descriptions]; simpl; try done.
  rewrite filter_cons. simpl. destruct (Py.truthy d) eqn:E.
  - rewrite decide_True by done. simpl. by rewrite IH.
  - rewrite decide_False by done. apply IH.
Qed.

Lemma spec_description_lines_length (titles descriptions : list string) :
  length titles = length descriptions →
  length (spec_description_lines titles descriptions)
  = length (filter (fun d => Py.truthy d = true) descriptions).
Proof.
  revert descriptions.
  induction titles as [|t titles IH]; intros [|d descriptions]; simpl; try done.
  intros [= Hlen]. rewrite filter_cons. destruct (Py.truthy d) eqn:E.
  - rewrite decide_True by done. simpl. by rewrite IH.
  - rewrite decide_False by done. by apply IH.
Qed.

Lemma spec_description_lines_elem (titles descriptions : list string) (line : string) :
  line ∈ spec_description_lines titles descriptions ↔
  ∃ i t d, titles !! i = Some t ∧ descriptions !! i = Some d
           ∧ d ≠ "" ∧ line = t +:+ ": " +:+ d.
Proof.
  revert descriptions.
  induction titles as [|t titles IH]; intros [|d descriptions]; simpl.
  - split; [ by intros ?%elem_of_nil | by intros (i & ? & ? & ? & _) ].
  - split; [ by intros ?%elem_of_nil | by intros (i & ? & ? & ? & _) ].
  - split; [ by intros ?%elem_of_nil | by intros ([|i] & ? & ? & _ & ? & _) ].
  - assert (line ∈ spec_description_lines titles descriptions ↔
            ∃ i t' d', (t :: titles) !! S i = Some t' ∧ (d :: descriptions) !! S i = Some d'
                       ∧ d' ≠ "" ∧ line = t' +:+ ": " +:+ d') as Htail.
    { rewrite IH. done. }
    destruct d as [|a d].
    + simpl. rewrite Htail. split.
      * intros (i & t' & d' & H). by exists (S i), t', d'.
      * intros ([|i] & t' & d' & Ht & Hd & Hne & Hl).
        -- simpl in Hd. by injection Hd as <-.
        -- by exists i, t', d'.
    + simpl. rewrite elem_of_cons, Htail. split.
      * intros [-> | (i & t' & d' & H)].
        -- by exists 0, t, (String a d).
        -- by exists (S i), t', d'.
      * intros ([|i] & t' & d' & Ht & Hd & Hne & Hl).
        -- simpl in Ht, Hd. injection Ht as <-. injection Hd as <-. by left.
        -- right. by exists i, t', d'.
Qed.

(** C8. For title and description lists of the same length, the
    description field of the packaged document is made of the lines
    "<chapter title>: <description>" of the chapters whose description is
    not empty, in chapter order, joined by a line feed; a chapter with an
    empty description gives no line, and the field is not set when no line
    is left. *)
Theorem description_field
    (accepted : epub_html → bool) (story_content : string)
    (titles descriptions : list string)
    (story_category : option string) (story_tags : option (list string))
    (book : epub_book) :
  length titles = length descriptions →
  create_epub_file accepted story_content (Some titles) (Some descriptions)
                   story_category story_tags = inr book →
  dc_description book =
    match spec_description_lines titles descriptions with
    | [] => None
    | lines => Some (Py.join LF lines)
    end
  ∧ length (spec_description_lines titles descriptions)
    = length (filter (fun d => Py.truthy d = true) descriptions)
  ∧ (∀ line, line ∈ spec_description_lines titles descriptions ↔
       ∃ i t d, titles !! i = Some t ∧ descriptions !! i = Some d
                ∧ d ≠ "" ∧ line = t +:+ ": " +:+ d).
Proof.
  intros Hlen Hbook. split; [ | split ].
  - unfold create_epub_file in Hbook.
    destruct (chapters _ _ _ _) as [|item items]; [ done | ].
    injection Hbook as <-. simpl.
    unfold description_metadata. simpl.
    rewrite description_parts_spec.
    destruct titles as [|t titles], descriptions as [|d descriptions]; done.
  - by apply spec_description_lines_length.
  - intros line. apply spec_description_lines_elem.
Qed.

Lemma description_field_witness :
  ∃ book,
    create_epub_file (fun _ => true) Sample.two_chapters
      (Some ["Ch1"; "Ch2"]) (Some ["A meets B"; "B leaves"]) None None = inr book
    ∧ dc_description book = Some ("Ch1: A meets B" +:+ LF +:+ "Ch2: B leaves").
Proof.
  eexists. split; [ vm_compute; reflexivity | ].
  eapply (description_field (fun _ => true) Sample.two_chapters
            ["Ch1"; "Ch2"] ["A meets B"; "B leaves"] None None);
    [ reflexivity | vm_compute; reflexivity ].
Defined.

(** ** The validation error *)



Lemma prefix_app (p s : string) : String.prefix p (p +:+ s) = true.
Proof.
  induction p as [|a p IH]; simpl; [ apply prefix_empty | ].
  by destruct (ascii_dec a a).
Qed.

Lemma string_app_nil_r (s : string) : s +:+ "" = s.
Proof. induction s as [|a s IH]; [ done | ]. change (String a (s +:+ "") = String a s). by f_equal. Qed.

Lemma string_app_assoc (s1 s2 s3 : string) : s1 +:+ (s2 +:+ s3) = (s1 +:+ s2) +:+ s3.
Proof.
  induction s1 as [|a s1 IH]; [ done | ].
  change (String a (s1 +:+ (s2 +:+ s3)) = String a ((s1 +:+ s2) +:+ s3)). by f_equal.
Qed.

Lemma fold_left_append {A} (g : string → A → string) (f : A → string) :
  (∀ acc x, g acc x = acc +:+ f x) →
  ∀ l acc, fold_left g l acc = acc +:+ fold_left g l "".
Proof.
  intros Hg. induction l as [|x l IH]; intros acc; simpl.
  - by rewrite string_app_nil_r.
  - rewrite IH, (IH (g "" x)), !Hg. change ("" +:+ f x) with (f x).
    by rewrite string_app_assoc.
Qed.






(** ** The body of a chapter *)

Lemma append_paragraphs_spec (acc : string) (paragraphs : list string) :
  append_paragraphs acc paragraphs
  = acc +:+ foldr (fun p rest => p +:+ LFLF +:+ rest) "" paragraphs.
Proof.
  unfold append_paragraphs. revert acc.
  induction paragraphs as [|p ps IH]; intros acc; simpl.
  - by rewrite string_app_nil_r.
  - rewrite IH. by rewrite <- !string_app_assoc.
Qed.

Lemma foldr_paragraphs_app (ps qs : list string) :
  foldr (fun p rest => p +:+ LFLF +:+ rest) "" (ps ++ qs)
  = foldr (fun p rest => p +:+ LFLF +:+ rest) "" ps
    +:+ foldr (fun p rest => p +:+ LFLF +:+ rest) "" qs.
Proof.
  induction ps as [|p ps IH]; simpl; [ done | ].
  rewrite IH. by rewrite <- !string_app_assoc.
Qed.

(** Between two paragraphs stands one blank line; one more ends the body. *)
Lemma foldr_paragraphs_join (ps : list string) :
  foldr (fun p rest => p +:+ LFLF +:+ rest) "" ps
  = match ps with [] => "" | _ => Py.join LFLF ps +:+ LFLF end.
Proof.
  induction ps as [|p [|q ps] IH]; [ done | done | ].
  change (p +:+ LFLF +:+ foldr (fun p rest => p +:+ LFLF +:+ rest) "" (q :: ps)
          = (p +:+ LFLF +:+ Py.join LFLF (q :: ps)) +:+ LFLF).
  rewrite IH. by rewrite <- !string_app_assoc.
Qed.

(** The chapter variables and the chapter list after a page. *)
Lemma process_page_content (c c' : crawl) (v : chapter_vars) (r : response) (k' : control) :
  process_page c v r = Some (k', c') →
  ∃ v', k' = AtPage v'
    ∧ current_chapter v' = current_chapter v
    ∧ current_chapter_content v'
      = append_paragraphs (current_chapter_content v) (paragraphs_of r)
    ∧ match next_page_link (parsed r) with
      | Some _ => chapter_contents c' = chapter_contents c
      | None =>
          current_url v' = None
          ∧ chapter_contents c' = chapter_contents c ++ [current_chapter_content v']
      end.
Proof.
  intros H. apply process_page_some in H as (c1 & H1 & H2).
  pose proof (story_block_fields c1 v r) as (_&_&_&_&_&_&_& Hc &_).
  pose proof (story_block_content c1 v r) as Hb.
  assert (chapter_contents c1 = chapter_contents c) as Hc1.
  { case_bool_decide; [ by destruct H1 as (d & _ & ->) | by subst c1 ]. }
  destruct (next_page_link (parsed r)) as [link|].
  - destruct H2 as (next_url & _ & -> & ->). eexists. split; [ done | ].
    simpl. repeat split; [ done | congruence ].
  - destruct H2 as [-> H2]. apply end_chapter_some in H2 as (_&_&_&_&_& Hc2 &_).
    eexists. split; [ done | ]. simpl. repeat split; [ done | congruence ].
Qed.

Lemma chapter_pages_body (web : site) (v v' : chapter_vars) (c c' : crawl)
    (pages : list response) :
  chapter_pages web v c pages v' c' →
  current_url v' = None
  ∧ chapter_contents c'
    = chapter_contents c ++ [current_chapter_content v +:+ spec_chapter_body pages]
  ∧ after web (length pages) (AtPage v) c = Some (AtPage v', c').
Proof.
  induction 1 as [v c u r v' c' Hu Ht Hw Hlast Hstep
                 |v c u r v1 c1 pages v' c' Hu Ht Hw Hnext Hstep Hrest IH].
  - pose proof Hstep as Hs. apply step_continue in Hs as [(Hf & _) | Hs].
    { rewrite Hu in Hf. simpl in Hf. congruence. }
    destruct Hs as (u' & r' & Hu' & _ & Hw' & Hp).
    assert (u' = u) as -> by congruence. assert (r' = r) as -> by congruence.
    apply process_page_content in Hp as (v2 & [= <-] & _ & Hb & Hc).
    rewrite Hlast in Hc. destruct Hc as [Hnone Hc].
    split; [ done | ]. split.
    + rewrite Hc. simpl in Hc |- *. rewrite Hb, append_paragraphs_spec.
      unfold spec_chapter_body. simpl. by rewrite app_nil_r.
    + cbn [length]. by rewrite (after_first web 0 _ _ _ _ Hstep).
  - destruct IH as (Hnone & Hc & Hafter).
    pose proof Hstep as Hs. apply step_continue in Hs as [(Hf & _) | Hs].
    { rewrite Hu in Hf. simpl in Hf. congruence. }
    destruct Hs as (u' & r' & Hu' & _ & Hw' & Hp).
    assert (u' = u) as -> by congruence. assert (r' = r) as -> by congruence.
    apply process_page_content in Hp as (v2 & [= <-] & _ & Hb & Hc1).
    destruct (next_page_link (parsed r)) as [link|]; [ | done ].
    split; [ done | ]. split.
    + rewrite Hc. simpl in Hc1. rewrite Hc1, Hb, append_paragraphs_spec.
      unfold spec_chapter_body. simpl. rewrite foldr_paragraphs_app.
      by rewrite <- !string_app_assoc.
    + cbn [length]. by rewrite (after_first web _ _ _ _ _ Hstep).
Qed.

(** C3. When a chapter is read over P >= 1 pages, the body appended to the
    chapter list is made of the paragraphs of the pages taken in page order,
    each paragraph of each page followed by the blank line that separates it
    from the next one. *)
Theorem chapter_body_is_ordered_concatenation
    (web : site) (v v' : chapter_vars) (c c' : crawl) (pages : list response) :
  chapter_pages web v c pages v' c' →
  current_chapter_content v = "" →
  1 ≤ length pages
  ∧ after web (length pages) (AtPage v) c = Some (AtPage v', c')
  ∧ current_url v' = None
  ∧ chapter_contents c' = chapter_contents c ++ [spec_chapter_body pages]
  ∧ spec_chapter_body pages
    = match concat (paragraphs_of <$> pages) with
      | [] => ""
      | paragraphs => Py.join LFLF paragraphs +:+ LFLF
      end.
Proof.
  intros Hpages Hempty.
  pose proof (chapter_pages_body web v v' c c' pages Hpages) as (Hnone & Hc & Hafter).
  rewrite Hempty in Hc. change ("" +:+ spec_chapter_body pages)
    with (spec_chapter_body pages) in Hc.
  split; [ destruct Hpages; simpl; lia | ].
  repeat split; [ done | done | done | ].
  unfold spec_chapter_body. rewrite foldr_paragraphs_join.
  by destruct (concat (paragraphs_of <$> pages)).
Qed.

Lemma chapter_body_is_ordered_concatenation_witness :
  ∃ v' c',
    after TwoPages.web 3 AtQueue (start TwoPages.url) = Some (AtPage v', c')
    ∧ chapter_contents c'
      = ["One." +:+ LFLF +:+ "Two." +:+ LFLF +:+ "Three." +:+ LFLF].
Proof.
  do 2 eexists. split; [ vm_compute; reflexivity | ].
  eapply (chapter_body_is_ordered_concatenation TwoPages.web
            {| current_url := Some TwoPages.url; current_chapter := 1;
               current_chapter_content := "" |}
            _
            (mark_processed (pop_rest (start TwoPages.url) []) TwoPages.url)
            _ [TwoPages.page1; TwoPages.page2]);
    [ | reflexivity ].
  eapply more_pages;
    [ reflexivity | reflexivity | reflexivity | discriminate
    | vm_compute; reflexivity | ].
  eapply last_page;
    [ reflexivity | reflexivity | reflexivity | reflexivity
    | vm_compute; reflexivity ].
Defined.


(** ** The series title *)

(** A finished chapter either leaves both titles as they are, or, with no
    non-empty series title so far, sets both to the one it finds. *)
Lemma end_chapter_title (c c' : crawl) (content : string) (r : response) :
  end_chapter c content r = Some c' →
  (series_title c' = series_title c ∧ story_title c' = story_title c)
  ∨ (Py.truthy_opt (series_title c) = false
     ∧ ∃ story_links t, series_panel (parsed r) = Some story_links
                        ∧ find_series_title story_links = Some t
                        ∧ series_title c' = Some t ∧ story_title c' = t).
Proof.
  unfold end_chapter. intros H.
  destruct (match series_panel (parsed r) with
            | Some story_links => find_next_part story_links
            | None => Some None
            end) as [next|]; [ | done ].
  injection H as <-. simpl.
  destruct (series_panel (parsed r)) as [story_links|]; [ | by left ].
  destruct (Py.truthy_opt (series_title c)) eqn:E; [ by left | ].
  destruct (find_series_title story_links) as [t|] eqn:Ef; [ | by left ].
  right. split; [ done | ]. by exists story_links, t.
Qed.

Lemma process_page_title (c c' : crawl) (v : chapter_vars) (r : response) (k' : control) :
  process_page c v r = Some (k', c') →
  (series_title c' = series_title c
   ∧ story_title c' =
       if bool_decide (current_page c = 1) && bool_decide (current_chapter v = 1)
       then current_title r else story_title c)
  ∨ (Py.truthy_opt (series_title c) = false
     ∧ next_page_link (parsed r) = None
     ∧ ∃ t, series_title c' = Some t ∧ story_title c' = t).
Proof.
  intros H. apply process_page_some in H as (c1 & H1 & H2).
  pose proof (story_block_fields c1 v r) as (Ht &_&_&_&_&_& Hs &_).
  assert (series_title c1 = series_title c
          ∧ story_title c1 =
              if bool_decide (current_page c = 1) && bool_decide (current_chapter v = 1)
              then current_title r else story_title c) as [Hs1 Ht1].
  { case_bool_decide; [ | by subst c1 ].
    destruct H1 as (d & _ & ->). simpl. by case_bool_decide. }
  destruct (next_page_link (parsed r)) as [link|].
  - destruct H2 as (next_url & _ & _ & ->). left. simpl. split; congruence.
  - destruct H2 as [_ H2]. apply end_chapter_title in H2 as [[Hs2 Ht2] | [Hf H2]].
    + left. split; congruence.
    + right. split; [ congruence | ]. split; [ done | ].
      destruct H2 as (story_links & t & _ & _ & Hs2 & Ht2). by exists t.
Qed.

Lemma title_inv_step (web : site) (k k' : control) (c c' : crawl) :
  title_inv k c → step web k c = Continue k' c' → title_inv k' c'.
Proof.
  intros (Hst & Hne & Hk) Hs. apply step_continue in Hs. destruct k as [|v].
  - destruct Hs as (u & rest & _ & Hs).
    case_bool_decide; destruct Hs as [-> ->]; done.
  - destruct Hs as [(_ & -> & ->) | (u & r & Hu & _ & _ & Hp)]; [ done | ].
    specialize (Hk (mk_is_Some _ _ Hu)).
    pose proof (process_page_title _ _ _ _ _ Hp) as Htitle.
    apply process_page_content in Hp as (v2 & -> & Hch & _ & Hc). simpl in *.
    assert (chapter_contents c ≠ [] → chapter_contents c' ≠ []) as Hmono.
    { destruct (next_page_link (parsed r)); [ by rewrite Hc | ].
      destruct Hc as [_ ->]. intros _. by destruct (chapter_contents c). }
    assert (next_page_link (parsed r) = None → chapter_contents c' ≠ []) as Hend.
    { intros Hn. rewrite Hn in Hc. destruct Hc as [_ ->].
      by destruct (chapter_contents c). }
    split; [ | split ].
    + intros t Ht.
      destruct Htitle as [[Hs' Ht'] | (_ & _ & t' & Hs' & Ht')]; [ | congruence ].
      rewrite Hs' in Ht. rewrite Ht'.
      rewrite (bool_decide_eq_false_2 (current_chapter v = 1)).
      * rewrite andb_false_r. by apply Hst.
      * rewrite Hk. assert (chapter_contents c ≠ []) as Hc0 by (apply Hne; congruence).
        destruct (chapter_contents c); [ done | simpl; lia ].
    + intros Hs'. destruct Htitle as [[Hs2 _] | (_ & Hn & _)].
      * apply Hmono, Hne. congruence.
      * by apply Hend.
    + intros Hsome. destruct (next_page_link (parsed r)) as [link|].
      * rewrite Hc, Hch. exact Hk.
      * destruct Hc as [Hnone _]. rewrite Hnone in Hsome. by destruct Hsome.
Qed.






(** ** A chapter without paragraphs *)

(** C4. A one-page chapter whose content block holds no paragraph gets its
    slot: the title is recorded and an empty body is appended. A chapter
    whose first page has no content block at all gets the body but not the
    title: on the sample series the title list is short of "Part 1", the
    heading of chapter 1 carries the title "Part 2" over the empty body of
    part 1, and the text of part 2 is left out of the combined text. *)
Theorem chapter_without_paragraphs :
  (∀ c v r k' c',
     current_page c = 1 →
     current_chapter_content v = "" →
     content_div (parsed r) = Some [] →
     next_page_link (parsed r) = None →
     process_page c v r = Some (k', c') →
     chapter_titles c' = chapter_titles c ++ [current_title r]
     ∧ chapter_contents c' = chapter_contents c ++ [""])
  ∧ (∀ c v r k' c',
       current_page c = 1 →
       content_div (parsed r) = None →
       next_page_link (parsed r) = None →
       process_page c v r = Some (k', c') →
       chapter_titles c' = chapter_titles c
       ∧ chapter_contents c' = chapter_contents c ++ [current_chapter_content v])
  ∧ (∃ k c, after Desync.web 6 AtQueue (start Desync.url1) = Some (k, c)
            ∧ chapter_titles c = ["Part 2"]
            ∧ chapter_contents c = [""; "Text of part 2." +:+ LFLF])
  ∧ download_story Desync.web 7 Desync.url1
    = Some {| ret_content := Some (LFLF +:+ "Chapter 1: Part 2" +:+ LFLF);
              ret_title := Some "Part 1";
              ret_author := Some "jane";
              ret_category := None;
              ret_tags := Some [];
              ret_chapter_titles := Some ["Part 2"];
              ret_chapter_descriptions := Some ["About part 1"; "About part 2"] |}.
Proof.
  split; [ | split; [ | split ] ].
  - intros c v r k' c' Hp Hv Hdiv Hnext H.
    pose proof (process_page_lists _ _ _ _ _ H) as [_ Ht].
    apply process_page_content in H as (v2 & _ & _ & Hb & Hc).
    rewrite Hnext in Hc. destruct Hc as [_ Hc].
    rewrite Ht, Hc, Hb, Hv, Hdiv. unfold paragraphs_of. rewrite Hdiv.
    by rewrite bool_decide_eq_true_2.
  - intros c v r k' c' Hp Hdiv Hnext H.
    pose proof (process_page_lists _ _ _ _ _ H) as [_ Ht].
    apply process_page_content in H as (v2 & _ & _ & Hb & Hc).
    rewrite Hnext in Hc. destruct Hc as [_ Hc].
    rewrite Ht, Hc, Hb, Hdiv. unfold paragraphs_of. rewrite Hdiv.
    rewrite bool_decide_eq_true_2 by done. by rewrite app_nil_r.
  - do 2 eexists. split; [ vm_compute; reflexivity | ]. split; reflexivity.
  - vm_compute. reflexivity.
Qed.


(** * Further properties of the code *)

(** ** File names *)

Example sanitize_example : sanitize_filename "Jane/Doe: Part 2!" = "JaneDoe Part 2".
Proof. reflexivity. Qed.

Lemma sanitize_app (s1 s2 : string) :
  sanitize_filename (s1 +:+ s2) = sanitize_filename s1 +:+ sanitize_filename s2.
Proof.
  induction s1 as [|a s1 IH]; [ done | ].
  change (String a s1 +:+ s2) with (String a (s1 +:+ s2)). cbn [sanitize_filename].
  rewrite IH. by destruct (allowed_char a).
Qed.

Lemma sanitize_chars (s : string) (a : ascii) :
  a ∈ String.list_ascii_of_string (sanitize_filename s) ↔
  a ∈ String.list_ascii_of_string s ∧ allowed_char a = true.
Proof.
  induction s as [|b s IH]; cbn [sanitize_filename String.list_ascii_of_string].
  - split; [ by intros ?%elem_of_nil | by intros [?%elem_of_nil _] ].
  - destruct (allowed_char b) eqn:E; cbn [String.list_ascii_of_string];
      rewrite ?elem_of_cons, IH.
    + split.
      * intros [-> | [Ha Hb]]; [ split; [ by left | done ] | split; [ by right | done ] ].
      * intros [[-> | Ha] Hb]; [ by left | right; by split ].
    + split.
      * intros [Ha Hb]. split; [ by right | done ].
      * intros [[-> | Ha] Hb]; [ congruence | by split ].
Qed.

(** X1. [sanitize_filename] keeps exactly the letters, digits, dots,
    underscores, spaces and hyphens of its argument, in their order: a
    character is in the result if and only if it is in the argument and is
    one of these, and the result never holds a path separator, a colon or a
    NUL. *)
Theorem sanitize_keeps_allowed_only (filename : string) (a : ascii) :
  (a ∈ String.list_ascii_of_string (sanitize_filename filename) ↔
   a ∈ String.list_ascii_of_string filename ∧ allowed_char a = true)
  ∧ (a ∈ String.list_ascii_of_string (sanitize_filename filename) →
     a ≠ "/"%char ∧ a ≠ "\"%char ∧ a ≠ ":"%char ∧ a ≠ "000"%char)
  ∧ String.length (sanitize_filename filename) ≤ String.length filename.
Proof.
  split; [ apply sanitize_chars | ]. split.
  - intros [_ Ha]%sanitize_chars. repeat split; intros ->; discriminate.
  - induction filename as [|b s IH]; cbn [sanitize_filename String.length]; [ done | ].
    destruct (allowed_char b); cbn [String.length]; lia.
Qed.

Lemma sanitize_fixed (s : string) :
  sanitize_filename s = s ↔ ∀ a, a ∈ String.list_ascii_of_string s → allowed_char a = true.
Proof.
  induction s as [|b s IH]; cbn [sanitize_filename String.list_ascii_of_string].
  - split; [ by intros _ a ?%elem_of_nil | done ].
  - destruct (allowed_char b) eqn:E.
    + split.
      * intros [= H] a [->|Ha]%elem_of_cons; [ done | by apply IH ].
      * intros H. f_equal. apply IH. intros a Ha. apply H. by right.
    + split.
      * intros H. exfalso.
        assert (b ∈ String.list_ascii_of_string (sanitize_filename s)) as Hb.
        { rewrite H. cbn [String.list_ascii_of_string]. by left. }
        apply sanitize_chars in Hb as [_ Hb]. congruence.
      * intros H. specialize (H b ltac:(by left)). congruence.
Qed.

(** X2. Sanitizing twice is sanitizing once, a name is left as it is
    exactly when all its characters are allowed, and the sanitized
    concatenation of two names is the concatenation of the sanitized names. *)
Theorem sanitize_idempotent (s1 s2 : string) :
  sanitize_filename (sanitize_filename s1) = sanitize_filename s1
  ∧ (sanitize_filename s1 = s1 ↔
     ∀ a, a ∈ String.list_ascii_of_string s1 → allowed_char a = true)
  ∧ sanitize_filename (s1 +:+ s2) = sanitize_filename s1 +:+ sanitize_filename s2.
Proof.
  split; [ | split; [ apply sanitize_fixed | apply sanitize_app ] ].
  apply sanitize_fixed. intros a Ha. by apply sanitize_chars in Ha as [_ Ha].
Qed.

(** ** Output paths *)

Lemma sanitized_author_allowed (story_author : string) (a : ascii) :
  a ∈ String.list_ascii_of_string (sanitized_author story_author) → allowed_char a = true.
Proof.
  unfold sanitized_author. destruct (Py.truthy (sanitize_filename story_author)).
  - by intros [_ Ha]%sanitize_chars.
  - intros Ha. cbn in Ha. repeat (apply elem_of_cons in Ha as [-> | Ha]; [ reflexivity | ]).
    by apply elem_of_nil in Ha.
Qed.

Lemma sanitized_author_truthy (story_author : string) :
  Py.truthy (sanitized_author story_author) = true.
Proof.
  unfold sanitized_author.
  by destruct (Py.truthy (sanitize_filename story_author)) eqn:E.
Qed.

Lemma ends_with_slash_elem (s : string) :
  ends_with_slash s = true → "/"%char ∈ String.list_ascii_of_string s.
Proof.
  induction s as [|a s IH]; [ done | ]. cbn [ends_with_slash String.list_ascii_of_string].
  destruct s as [|b s].
  - intros ->%bool_decide_eq_true. by left.
  - intros H. right. by apply IH.
Qed.

Lemma ends_with_slash_app (s t : string) :
  Py.truthy t = true → ends_with_slash (s +:+ t) = ends_with_slash t.
Proof.
  intros Ht. induction s as [|a s IH]; [ done | ].
  change (String a s +:+ t) with (String a (s +:+ t)).
  cbn [ends_with_slash]. rewrite IH.
  destruct (s +:+ t) eqn:E; [ | done ].
  destruct s; [ | done ]. change ("" +:+ t) with t in E. by subst t.
Qed.

Lemma truthy_app_r (s t : string) : Py.truthy t = true → Py.truthy (s +:+ t) = true.
Proof. intros Ht. by destruct s. Qed.

Lemma list_ascii_app (s t : string) :
  String.list_ascii_of_string (s +:+ t)
  = String.list_ascii_of_string s ++ String.list_ascii_of_string t.
Proof.
  induction s as [|a s IH]; [ done | ].
  change (String a s +:+ t) with (String a (s +:+ t)).
  cbn [String.list_ascii_of_string]. by rewrite IH.
Qed.

(** A name made of allowed characters is not taken for an absolute path. *)
Lemma allowed_not_absolute (s : string) :
  (∀ a, a ∈ String.list_ascii_of_string s → allowed_char a = true) →
  Py.startswith s "/" = false.
Proof.
  intros H. destruct s as [|a s]; [ done | ].
  unfold Py.startswith. cbn [String.prefix].
  destruct (ascii_dec "/" a) as [<-|]; [ | done ].
  specialize (H "/"%char ltac:(by left)). discriminate.
Qed.

(** X3. The directory of the author is never named by the empty string
    (an author without any allowed character is filed under
    "Unknown_Author") and its name holds allowed characters only. The EPUB
    and the default cover are written at
    [<output_directory>/<author>/<title>.epub] and [.jpg], the first
    separator being left out when the output directory is empty or ends
    with one: neither name can make the path absolute or add a directory
    level. The title has no such fallback: a title without any allowed
    character gives the file name [.epub]. *)
Theorem output_paths (output_directory story_author story_title : string) :
  Py.truthy (sanitized_author story_author) = true
  ∧ (∀ a, a ∈ String.list_ascii_of_string (sanitized_author story_author) →
          allowed_char a = true)
  ∧ epub_path output_directory story_author story_title
    = output_directory
      +:+ (if negb (Py.truthy output_directory) || ends_with_slash output_directory
           then "" else "/")
      +:+ sanitized_author story_author +:+ "/"
      +:+ sanitize_filename story_title +:+ ".epub"
  ∧ default_cover_path output_directory story_author story_title
    = output_directory
      +:+ (if negb (Py.truthy output_directory) || ends_with_slash output_directory
           then "" else "/")
      +:+ sanitized_author story_author +:+ "/"
      +:+ sanitize_filename story_title +:+ ".jpg"
  ∧ (sanitize_filename story_title = "" →
     epub_path output_directory story_author story_title
     = author_dir output_directory story_author +:+ "/.epub").
Proof.
  pose proof (sanitized_author_truthy story_author) as Ht.
  pose proof (sanitized_author_allowed story_author) as Ha.
  assert (Hdir : author_dir output_directory story_author
                 = output_directory
                   +:+ (if negb (Py.truthy output_directory)
                           || ends_with_slash output_directory
                        then "" else "/")
                   +:+ sanitized_author story_author).
  { unfold author_dir, path_join. rewrite (allowed_not_absolute _ Ha).
    by destruct (negb (Py.truthy output_directory) || ends_with_slash output_directory). }
  assert (Hfile : ∀ ext, Py.truthy ext = true → Py.startswith ext "/" = false →
            path_join (author_dir output_directory story_author)
                      (sanitize_filename story_title +:+ ext)
            = author_dir output_directory story_author +:+ "/"
              +:+ sanitize_filename story_title +:+ ext).
  { intros ext Hext Hrel. unfold path_join.
    assert (Py.startswith (sanitize_filename story_title +:+ ext) "/" = false) as ->.
    { destruct (sanitize_filename story_title) as [|a s] eqn:E; [ done | ].
      unfold Py.startswith.
      change (String a s +:+ ext) with (String a (s +:+ ext)). cbn [String.prefix].
      destruct (ascii_dec "/" a) as [<-|]; [ | done ].
      assert ("/"%char ∈ String.list_ascii_of_string (sanitize_filename story_title)) as Hin.
      { rewrite E. by left. }
      apply sanitize_chars in Hin as [_ Hin]. discriminate. }
    assert (Py.truthy (author_dir output_directory story_author) = true) as ->.
    { rewrite Hdir. apply truthy_app_r. by apply truthy_app_r. }
    assert (ends_with_slash (author_dir output_directory story_author) = false) as ->.
    { rewrite Hdir. rewrite !ends_with_slash_app by (done || by apply truthy_app_r).
      destruct (ends_with_slash (sanitized_author story_author)) eqn:E; [ | done ].
      apply ends_with_slash_elem, Ha in E. discriminate. }
    done. }
  split; [ done | ]. split; [ done | ].
  unfold epub_path, default_cover_path. rewrite !Hfile by done.
  rewrite Hdir. rewrite <- !string_app_assoc.
  repeat split. intros ->. done.
Qed.

(** ** The queue *)

Lemma queue_inv_step (web : site) (k k' : control) (c c' : crawl) :
  queue_inv k c → step web k c = Continue k' c' → queue_inv k' c'.
Proof.
  intros Hk Hs. apply step_continue in Hs. destruct k as [|v].
  - destruct Hs as (u & rest & Hu & Hs). destruct Hk as [Hk | (u' & Hk & Hnew)].
    { congruence. }
    rewrite Hu in Hk. injection Hk as <- ->.
    case_bool_decide as Hin; [ done | ]. destruct Hs as [-> ->]. done.
  - destruct Hs as [(Hf & -> & ->) | (u & r & Hu & _ & _ & Hp)].
    + unfold queue_inv in Hk. destruct (current_url v); [ by left | done ].
    + unfold queue_inv in Hk. rewrite Hu in Hk.
      apply process_page_control in Hp as [Hv Hnext]. simpl in Hv, Hnext.
      destruct (next_page_link (parsed r)) as [link|].
      * destruct Hnext as (next_url & content & _ & -> & _ & Hq & _). simpl.
        by rewrite Hq.
      * destruct Hnext as (content & -> & _ & _ & Hq). simpl.
        destruct Hq as [Hq | (href & Hq & Hnew)]; [ left; by rewrite Hq | ].
        right. exists (absolute href). rewrite Hq, Hk, Hv. done.
Qed.

(** X4. At every loop head of a crawl the queue holds at most one URL and
    that URL is not in the visited set, so the [continue] of line 144 is
    never taken: each pass at the head of the outer loop that finds a URL
    begins a chapter at it. *)
Theorem queue_never_skips (web : site) (url : string) (k : control) (c : crawl) :
  reachable web url k c →
  length (chapter_urls c) ≤ 1
  ∧ (∀ u, u ∈ chapter_urls c → u ∉ processed_urls c)
  ∧ (∀ u rest, k = AtQueue → chapter_urls c = u :: rest →
       rest = []
       ∧ step web k c
         = Continue (AtPage {| current_url := Some u;
                               current_chapter := length (chapter_contents c) + 1;
                               current_chapter_content := "" |})
                    (mark_processed (pop_rest c []) u)).
Proof.
  intros Hr.
  assert (queue_inv k c) as Hk.
  { apply (reachable_invariant web url queue_inv); [ | | done ].
    - right. exists url. split; [ done | set_solver ].
    - intros ? ? ? ?. apply queue_inv_step. }
  assert (short_queue c) as Hq.
  { destruct k as [|v]; [ done | ]. simpl in Hk.
    destruct (current_url v); [ by left | done ]. }
  split; [ | split ].
  - destruct Hq as [-> | (u & -> & _)]; simpl; lia.
  - intros u Hu. destruct Hq as [Hq | (u' & Hq & Hnew)]; rewrite Hq in Hu.
    + by apply elem_of_nil in Hu.
    + apply list_elem_of_singleton in Hu. by subst u.
  - intros u rest -> Hu. destruct Hq as [Hq | (u' & Hq & Hnew)]; [ congruence | ].
    rewrite Hu in Hq. injection Hq as <- ->. split; [ done | ].
    simpl. rewrite Hu. by rewrite bool_decide_eq_false_2.
Qed.

Lemma queue_never_skips_witness :
  ∃ c, after Desync.web 3 AtQueue (start Desync.url1) = Some (AtQueue, c)
       ∧ chapter_urls c = [Desync.url2]
       ∧ Desync.url2 ∉ processed_urls c.
Proof.
  eexists. split; [ vm_compute; reflexivity | ]. split; [ reflexivity | ].
  eapply (queue_never_skips Desync.web Desync.url1 AtQueue);
    [ exists 3; vm_compute; reflexivity | by left ].
Defined.

(** ** Links *)

Lemma absolute_http (next_url : string) : Py.startswith (absolute next_url) "http" = true.
Proof.
  unfold absolute. destruct (Py.startswith next_url "http") eqn:E; [ done | ].
  unfold Py.startswith, base_url.
  change ("https://www.literotica.com" +:+ next_url)
    with (String "h" (String "t" (String "t" (String "p"
            ("s://www.literotica.com" +:+ next_url))))).
  cbn [String.prefix]. repeat (destruct (ascii_dec _ _); [ | done ]).
  apply prefix_empty.
Qed.

Lemma find_next_part_http (story_links : list story_div) (next_url : string) :
  find_next_part story_links = Some (Some next_url) →
  Py.startswith next_url "http" = true.
Proof. intros [href ->]%find_next_part_absolute. apply absolute_http. Qed.

Lemma absolute_inv_step (web : site) (url : string) (k k' : control) (c c' : crawl) :
  absolute_inv url k c → step web k c = Continue k' c' → absolute_inv url k' c'.
Proof.
  intros (Hlog & Hq & Hk) Hs. apply step_continue in Hs. destruct k as [|v].
  - destruct Hs as (u & rest & Hu & Hs). rewrite Hu in Hq.
    case_bool_decide; destruct Hs as [-> ->]; simpl.
    + repeat split; [ done | ]. intros u' Hu'. apply Hq. by right.
    + repeat split; [ done | | ].
      * intros u' Hu'. apply Hq. by right.
      * intros u' [= <-]. apply Hq. by left.
  - destruct Hs as [(_ & -> & ->) | (u & r & Hu & _ & _ & Hp)]; [ done | ].
    pose proof (process_page_log _ _ _ _ _ Hp) as Hlog'.
    apply process_page_control in Hp as [_ Hnext]. simpl in Hlog', Hnext.
    assert (∀ e, e ∈ fetch_log c' → crawl_url url e.1) as Hlog2.
    { rewrite Hlog'. intros e [He | He%list_elem_of_singleton]%elem_of_app.
      - by apply Hlog.
      - subst e. simpl. by apply Hk. }
    destruct (next_page_link (parsed r)) as [link|].
    + destruct Hnext as (next_url & content & _ & -> & _ & Hq' & _).
      repeat split; [ done | by rewrite Hq' | ].
      simpl. intros u' [= <-]. right. apply absolute_http.
    + destruct Hnext as (content & -> & _ & _ & Hq').
      repeat split; [ done | | done ].
      destruct Hq' as [-> | (href & -> & _)]; [ done | ].
      intros u' [Hu' | Hu'%list_elem_of_singleton]%elem_of_app; [ by apply Hq | ].
      subst u'. right. apply absolute_http.
Qed.

(** X5. A link is resolved before it is followed: a "Next Page" or "Next
    Part" address that does not begin with "http" is put behind
    [https://www.literotica.com]. So every URL the crawl fetches, other than
    the start URL itself, begins with "http", and so does every URL it puts
    in the queue. *)
Theorem fetched_urls_are_absolute (web : site) (url : string) (k : control) (c : crawl) :
  reachable web url k c →
  (∀ u page, (u, page) ∈ fetch_log c → u = url ∨ Py.startswith u "http" = true)
  ∧ (∀ u, u ∈ chapter_urls c → u = url ∨ Py.startswith u "http" = true)
  ∧ (∀ href, Py.startswith href "http" = false →
             absolute href = "https://www.literotica.com" +:+ href)
  ∧ (∀ href, Py.startswith href "http" = true → absolute href = href).
Proof.
  intros Hr.
  assert (absolute_inv url k c) as (Hlog & Hq & _).
  { apply (reachable_invariant web url (absolute_inv url)); [ | | done ].
    - repeat split; [ by intros e ?%elem_of_nil | ].
      intros u ->%list_elem_of_singleton. by left.
    - intros ? ? ? ?. apply absolute_inv_step. }
  split; [ | split; [ done | split ] ].
  - intros u page He. by apply (Hlog (u, page)).
  - intros href H. unfold absolute. by rewrite H.
  - intros href H. unfold absolute. by rewrite H.
Qed.

Lemma fetched_urls_are_absolute_witness :
  Py.startswith TwoPages.url_page2 "http" = true.
Proof.
  destruct (fetched_urls_are_absolute TwoPages.web TwoPages.url AtQueue
              (default (start TwoPages.url)
                 (snd <$> after TwoPages.web 4 AtQueue (start TwoPages.url))))
    as (Hlog & _).
  - exists 4. vm_compute. reflexivity.
  - destruct (Hlog TwoPages.url_page2 2) as [H | H]; [ by_evaluation | discriminate | exact H ].
Defined.

(** ** Bodies and descriptions *)

Lemma aligned_inv_step (web : site) (k k' : control) (c c' : crawl) :
  aligned_inv k c → step web k c = Continue k' c' → aligned_inv k' c'.
Proof.
  intros (Hp & Hk) Hs. apply step_continue in Hs. destruct k as [|v].
  - destruct Hs as (u & rest & _ & Hs). destruct Hk as [Hp1 Hlen].
    case_bool_decide; destruct Hs as [-> ->]; simpl; [ done | ].
    split; [ done | ]. split; [ done | ].
    rewrite bool_decide_eq_true_2 by done. simpl. lia.
  - destruct Hs as [(Hf & -> & ->) | (u & r & Hu & Ht & _ & Hpp)].
    + destruct (current_url v) as [u|] eqn:Eu; [ | done ].
      simpl in Hf. destruct Hk as [Hp1 Hlen]. specialize (Hp1 Hf).
      rewrite bool_decide_eq_true_2 in Hlen by done.
      split; [ done | ]. split; [ done | lia ].
    + rewrite Hu in Hk. destruct Hk as [_ Hk].
      pose proof (process_page_lists _ _ _ _ _ Hpp) as [Hd _].
      apply process_page_control in Hpp as [_ Hnext]. simpl in *.
      destruct (next_page_link (parsed r)) as [link|].
      * destruct Hnext as (next_url & content & _ & -> & Hp' & _ & Hc').
        split; [ lia | ]. simpl. split.
        { intros Hf. by rewrite absolute_truthy in Hf. }
        rewrite Hp', Hc'.
        rewrite (bool_decide_eq_false_2 (_ + 1 = 1)) by lia.
        case_bool_decide; [ destruct Hd as (d & _ & Hd) | ];
          rewrite Hd, ?length_app; simpl; lia.
      * destruct Hnext as (content & -> & Hp' & Hc' & _).
        split; [ lia | ]. simpl. split; [ done | ]. rewrite Hc', length_app. simpl.
        case_bool_decide; [ destruct Hd as (d & _ & Hd) | ];
          rewrite Hd, ?length_app; simpl; lia.
Qed.

(** A run that returns something else than the seven [None]s returns the
    result of a state at the head of the outer loop, with an empty queue. *)
Lemma run_success (web : site) (fuel : nat) (url : string) (ret : returned) :
  download_story web fuel url = Some ret →
  ret ≠ all_none →
  ∃ c, reachable web url AtQueue c ∧ chapter_urls c = [] ∧ ret = result_of c.
Proof.
  intros Hrun Hne. apply run_returns in Hrun as (n & k & c & _ & Hn & Hs).
  destruct k as [|v]; simpl in Hs.
  - destruct (chapter_urls c) as [|u rest] eqn:Eq; [ | by case_bool_decide ].
    injection Hs as <-. exists c. split; [ by exists n | done ].
  - repeat case_match; simplify_eq; done.
Qed.

(** X6. Every chapter that is read to its last page gives exactly one body
    and one description, whatever its pages hold: in the result of a crawl
    that succeeds the descriptions are as many as the bodies, and the titles
    at most as many. The combined text has one heading per title, over the
    bodies taken from the front of the list: a body beyond the last title is
    left out. *)
Theorem bodies_and_descriptions_aligned
    (web : site) (fuel : nat) (url : string) (ret : returned) :
  download_story web fuel url = Some ret →
  ret ≠ all_none →
  ∃ c, reachable web url AtQueue c
       ∧ ret = result_of c
       ∧ length (chapter_descriptions c) = length (chapter_contents c)
       ∧ length (chapter_titles c) ≤ length (chapter_contents c)
       ∧ length (enumerate1 (zip (chapter_titles c) (chapter_contents c)))
         = length (chapter_titles c)
       ∧ ret_content ret
         = Some (combine_chapters (chapter_titles c)
                   (take (length (chapter_titles c)) (chapter_contents c))).
Proof.
  intros Hrun Hne.
  destruct (run_success web fuel url ret Hrun Hne) as (c & Hr & _ & ->).
  assert (aligned_inv AtQueue c) as (_ & _ & Hlen).
  { apply (reachable_invariant web url aligned_inv); [ | | done ].
    - by repeat split.
    - intros ? ? ? ?. apply aligned_inv_step. }
  assert (lists_inv c) as [_ Ht].
  { destruct Hr as [n Hn].
    refine (after_invariant web (fun _ c => lists_inv c) _ n _ _ AtQueue c _ Hn).
    - intros ? ? ? ?. apply lists_inv_step.
    - by split. }
  exists c. split; [ done | ]. split; [ done | ]. split; [ done | ].
  split; [ lia | ]. split.
  - unfold enumerate1. rewrite !length_zip_with, length_seq. lia.
  - simpl. f_equal. unfold combine_chapters. f_equal. f_equal.
    clear -Ht Hlen. rewrite Hlen in Ht. clear Hlen.
    revert Ht. generalize (chapter_contents c).
    induction (chapter_titles c) as [|t ts IH]; intros [|b bs] Hle; simpl in *;
      [ done | done | lia | ].
    f_equal. apply IH. lia.
Qed.

Lemma bodies_and_descriptions_aligned_witness :
  ∃ c, download_story TwoPages.web 5 TwoPages.url = Some (result_of c)
       ∧ length (chapter_descriptions c) = length (chapter_contents c).
Proof.
  destruct (bodies_and_descriptions_aligned TwoPages.web 5 TwoPages.url
              (default all_none (download_story TwoPages.web 5 TwoPages.url)))
    as (c & _ & Hret & Hd & _).
  - vm_compute. reflexivity.
  - vm_compute. discriminate.
  - exists c. split; [ | done ]. rewrite <- Hret. vm_compute. reflexivity.
Defined.

(** ** The empty start URL *)

(** X8. For the empty string as start URL nothing is fetched: the URL is
    marked as visited, the page loop is not entered, and the crawl returns,
    whatever the site, the empty text, the default title and author, no
    category and empty lists; this result is not the failure outcome. *)
Theorem empty_url_fetches_nothing (web : site) (fuel : nat) :
  3 ≤ fuel →
  download_story web fuel ""
  = Some {| ret_content := Some "";
            ret_title := Some "Unknown Title";
            ret_author := Some "Unknown Author";
            ret_category := None;
            ret_tags := Some [];
            ret_chapter_titles := Some [];
            ret_chapter_descriptions := Some [] |}
  ∧ (∃ c, after web 2 AtQueue (start "") = Some (AtQueue, c)
          ∧ fetch_log c = [] ∧ processed_urls c = {[ "" ]}).
Proof.
  intros Hfuel. split.
  - destruct fuel as [|[|[|fuel]]]; [ lia | lia | lia | ]. reflexivity.
  - eexists. split; [ reflexivity | ]. split; [ done | ]. simpl. set_solver.
Qed.

Lemma empty_url_fetches_nothing_witness :
  ret_content <$> download_story Broken.web 3 "" = Some (Some "").
Proof.
  rewrite (proj1 (empty_url_fetches_nothing Broken.web 3 ltac:(lia))). reflexivity.
Defined.

(** ** Author, category and tags *)

Lemma extract_category_start (c : crawl) (r : response) :
  story_category c = None → extract_category c r = page_category r.
Proof.
  intros Hc. unfold page_category, extract_category. rewrite Hc. done.
Qed.

(** Author, category and tags are written on the first page of the first
    chapter and nowhere else. *)
Lemma process_page_meta (c c' : crawl) (v : chapter_vars) (r : response) (k' : control) :
  process_page c v r = Some (k', c') →
  if bool_decide (current_page c = 1) && bool_decide (current_chapter v = 1)
  then story_author c' = match author_link (parsed r) with
                         | Some a => Py.strip a
                         | None => story_author c
                         end
       ∧ story_category c' = extract_category c r
       ∧ story_tags c' = extract_tags r (extract_category c r)
  else story_author c' = story_author c
       ∧ story_category c' = story_category c
       ∧ story_tags c' = story_tags c.
Proof.
  intros H. apply process_page_some in H as (c1 & H1 & H2).
  pose proof (story_block_fields c1 v r) as (_ & Ha & Hc & Ht & _).
  assert (story_author c' = story_author c1 ∧ story_category c' = story_category c1
          ∧ story_tags c' = story_tags c1) as (-> & -> & ->).
  { destruct (next_page_link (parsed r)) as [link|].
    - destruct H2 as (next_url & _ & _ & ->). simpl. by rewrite Ha, Hc, Ht.
    - destruct H2 as [_ H2]. apply end_chapter_some in H2 as (-> & -> & -> & _).
      by rewrite Ha, Hc, Ht. }
  case_bool_decide; [ | by subst c1 ].
  destruct H1 as (d & _ & ->). simpl. by case_bool_decide.
Qed.

Lemma meta_inv_step (web : site) (url : string) (k k' : control) (c c' : crawl) :
  meta_inv web url k c → step web k c = Continue k' c' → meta_inv web url k' c'.
Proof.
  intros Hinv Hs. apply step_continue in Hs.
  destruct Hinv as [(Hc & Hp & Ha & Hcat & Htags & Hk)
                   |(r0 & Hw & Hurl & Ha & Hcat & Htags & Hq & Hp & Hk)].
  - (* nothing read yet *)
    destruct k as [|v].
    + destruct Hs as (u & rest & Hu & Hs).
      destruct Hk as [[Hq Hnew] | [Hq _]]; [ | congruence ].
      rewrite Hu in Hq. injection Hq as -> ->.
      rewrite bool_decide_eq_false_2 in Hs by done. destruct Hs as [-> ->].
      left. simpl. rewrite Hc. done.
    + destruct Hk as (Hu & Hch & Hq).
      destruct Hs as [(Hf & -> & ->) | (u & r & Hu' & Ht & Hw & Hpp)].
      * left. repeat split; try done. right.
        rewrite Hu in Hf. simpl in Hf. done.
      * rewrite Hu in Hu'. injection Hu' as <-.
        pose proof (process_page_meta _ _ _ _ _ Hpp) as Hm.
        apply process_page_control in Hpp as [_ Hnext]. simpl in *.
        rewrite Hp, Hch in Hm. simpl in Hm. rewrite Ha in Hm.
        rewrite (extract_category_start (log_fetch c url) r Hcat) in Hm.
        destruct Hm as (Ha' & Hcat' & Htags').
        right. exists r.
        split; [ done | ]. split; [ done | ]. split; [ done | ].
        split; [ done | ]. split; [ done | ].
        destruct (next_page_link (parsed r)) as [link|].
        -- destruct Hnext as (next_url & content & _ & -> & Hp' & Hq' & Hc').
           split; [ rewrite Hq', Hq; by intros u ?%elem_of_nil | ].
           split; [ lia | ].
           simpl. split; [ apply absolute_truthy | ]. rewrite Hc', Hc.
           split; [ done | ]. intros _. lia.
        -- destruct Hnext as (content & -> & Hp' & Hc' & Hq'). split; [ | split ].
           ++ destruct Hq' as [-> | (href & -> & _)]; rewrite Hq.
              ** by intros u ?%elem_of_nil.
              ** intros u ->%list_elem_of_singleton. apply absolute_truthy.
           ++ lia.
           ++ simpl. rewrite Hc'. by destruct (chapter_contents c).
  - (* read from the start page *)
    right. exists r0. destruct k as [|v].
    + destruct Hs as (u & rest & Hu & Hs).
      assert (∀ u', u' ∈ rest → Py.truthy u' = true) as Hrest.
      { intros u' Hu'. apply Hq. rewrite Hu. by right. }
      case_bool_decide; destruct Hs as [-> ->]; simpl; repeat split; try done.
      apply Hq. rewrite Hu. by left.
    + destruct Hs as [(Hf & -> & ->) | (u & r & Hu & Ht & _ & Hpp)].
      * repeat split; try done.
        destruct (current_url v) as [u|]; [ | done ].
        destruct Hk as [Hk _]. simpl in Hf. congruence.
      * rewrite Hu in Hk. destruct Hk as (_ & Hch & Hfirst).
        pose proof (process_page_meta _ _ _ _ _ Hpp) as Hm.
        apply process_page_control in Hpp as [_ Hnext]. simpl in *.
        assert (bool_decide (current_page c = 1) && bool_decide (current_chapter v = 1)
                = false) as Hnot.
        { case_bool_decide as Hp1; [ | done ]. simpl.
          apply bool_decide_eq_false_2. rewrite Hch.
          destruct (chapter_contents c); [ by destruct Hfirst | simpl; lia ]. }
        rewrite Hnot in Hm. destruct Hm as (-> & -> & ->).
        split; [ done | ]. split; [ done | ]. split; [ done | ].
        split; [ done | ]. split; [ done | ].
        destruct (next_page_link (parsed r)) as [link|].
        -- destruct Hnext as (next_url & content & _ & -> & Hp' & Hq' & Hc').
           split; [ by rewrite Hq' | ]. split; [ lia | ].
           simpl. split; [ apply absolute_truthy | ]. rewrite Hc'.
           split; [ done | ]. intros _. lia.
        -- destruct Hnext as (content & -> & Hp' & Hc' & Hq'). split; [ | split ].
           ++ destruct Hq' as [-> | (href & -> & _)]; [ done | ].
              intros u' [Hu' | Hu'%list_elem_of_singleton]%elem_of_app;
                [ by apply Hq | subst u'; apply absolute_truthy ].
           ++ lia.
           ++ simpl. rewrite Hc'. by destruct (chapter_contents c).
Qed.

(** X7. Author, category and tags of a story are read once, on the first
    page of the first chapter, and no later page changes them: when a crawl
    of a non-empty start URL succeeds, that URL was served with a page [r],
    and the author, the category and the tags returned are those of [r]
    (the stripped author link or "Unknown Author", the second breadcrumb
    link with "inc..." turned into "I/T", the tags kept with the category in
    front). *)
Theorem metadata_from_start_page
    (web : site) (fuel : nat) (url : string) (ret : returned) :
  download_story web fuel url = Some ret →
  ret ≠ all_none →
  Py.truthy url = true →
  ∃ r, web url = Response r
       ∧ ret_author ret = Some (page_author r)
       ∧ ret_category ret = page_category r
       ∧ ret_tags ret = Some (extract_tags r (page_category r)).
Proof.
  intros Hrun Hne Hurl.
  destruct (run_success web fuel url ret Hrun Hne) as (c & Hr & Hq & ->).
  assert (meta_inv web url AtQueue c) as Hinv.
  { apply (reachable_invariant web url (meta_inv web url)); [ | | done ].
    - left. repeat split; try done. left. split; [ done | set_solver ].
    - intros ? ? ? ?. apply meta_inv_step. }
  destruct Hinv as [(_ & _ & _ & _ & _ & Hk) | (r & Hw & _ & Ha & Hcat & Htags & _)].
  - destruct Hk as [[Hk _] | [_ Hf]]; congruence.
  - exists r. simpl. by rewrite Ha, Hcat, Htags.
Qed.

Lemma metadata_from_start_page_witness :
  ret_author (default all_none (download_story Sample.web 4 Sample.url)) = Some "jane"
  ∧ ret_category (default all_none (download_story Sample.web 4 Sample.url))
    = Some "I/T".
Proof.
  destruct (metadata_from_start_page Sample.web 4 Sample.url
              (default all_none (download_story Sample.web 4 Sample.url)))
    as (r & Hw & Ha & Hcat & _).
  - vm_compute. reflexivity.
  - vm_compute. discriminate.
  - reflexivity.
  - change (Response Sample.taboo_page = Response r) in Hw. injection Hw as <-.
    split; [ | by rewrite Hcat ].
    by rewrite Ha.
Defined.

(** ** Splitting what was joined *)

Lemma prefix_app_long (p s t : string) :
  String.length p ≤ String.length s → String.prefix p (s +:+ t) = String.prefix p s.
Proof.
  revert s. induction p as [|a p IH]; intros s Hlen.
  { by rewrite !prefix_empty. }
  destruct s as [|b s]; [ simpl in Hlen; lia | ].
  change (String b s +:+ t) with (String b (s +:+ t)). cbn [String.prefix].
  destruct (ascii_dec a b); [ | done ]. apply IH. simpl in Hlen. lia.
Qed.

Lemma string_length_app (s t : string) :
  String.length (s +:+ t) = String.length s + String.length t.
Proof.
  induction s as [|a s IH]; [ done | ].
  change (String a s +:+ t) with (String a (s +:+ t)). simpl. by rewrite IH.
Qed.

(** The characters of a matched separator are passed over. *)
Lemma split_go_skip (sep cur s rest : string) :
  Py.split_go sep (String.length s) cur (s +:+ rest) = Py.split_go sep 0 cur rest.
Proof.
  induction s as [|a s IH]; [ done | ].
  change (String a s +:+ rest) with (String a (s +:+ rest)). exact IH.
Qed.

(** A text without the separator is one piece. *)
Lemma split_go_none (sep cur y : string) :
  Py.find y sep = None → Py.split_go sep 0 cur y = [String.rev_app cur y].
Proof.
  revert cur. induction y as [|a y IH]; intros cur; [ done | ].
  cbn [Py.find Py.split_go].
  destruct (String.prefix sep (String a y)); [ done | ].
  destruct (Py.find y sep) eqn:E; [ done | ]. intros _. by rewrite IH.
Qed.

(** Up to the first occurrence of the separator is the first piece. *)
Lemma split_go_first (sep cur x rest : string) :
  sep ≠ "" →
  Py.find (x +:+ sep) sep = Some (String.length x) →
  Py.split_go sep 0 cur (x +:+ sep +:+ rest)
  = String.rev_app cur x :: Py.split_go sep 0 "" rest.
Proof.
  intros Hsep. revert cur. induction x as [|a x IH]; intros cur Hfind.
  - change ("" +:+ sep +:+ rest) with (sep +:+ rest).
    destruct sep as [|b sep]; [ done | ].
    change (String b sep +:+ rest) with (String b (sep +:+ rest)).
    cbn [Py.split_go].
    change (String b (sep +:+ rest)) with (String b sep +:+ rest).
    rewrite prefix_app.
    replace (String.length (String b sep) - 1) with (String.length sep)
      by (simpl; lia).
    by rewrite split_go_skip.
  - change (String a x +:+ sep +:+ rest) with (String a (x +:+ sep +:+ rest)).
    change (String a x +:+ sep) with (String a (x +:+ sep)) in Hfind.
    cbn [Py.find] in Hfind. cbn [Py.split_go].
    destruct (String.prefix sep (String a (x +:+ sep))) eqn:Ep; [ done | ].
    assert (String.prefix sep (String a (x +:+ sep +:+ rest)) = false) as ->.
    { rewrite <- Ep. rewrite string_app_assoc.
      change (String a ((x +:+ sep) +:+ rest)) with (String a (x +:+ sep) +:+ rest).
      apply prefix_app_long. simpl. rewrite string_length_app. lia. }
    destruct (Py.find (x +:+ sep) sep) as [n|] eqn:E; [ | done ].
    simpl in Hfind. injection Hfind as ->. by rewrite IH.
Qed.

(** Splitting undoes joining when the separator occurs only where the
    join puts it. *)
Lemma split_join (sep : string) (pieces : list string) :
  sep ≠ "" → pieces ≠ [] → separable sep pieces →
  Py.split (Py.join sep pieces) sep = pieces.
Proof.
  intros Hsep Hne. unfold Py.split.
  induction pieces as [|x [|y rest] IH]; [ done | | ].
  - intros Hx. simpl in Hx. simpl Py.join. by rewrite split_go_none.
  - intros [Hx Hrest]. change (Py.join sep (x :: y :: rest))
      with (x +:+ sep +:+ Py.join sep (y :: rest)).
    rewrite split_go_first by done. f_equal. by apply IH.
Qed.

Lemma join_cons (sep p : string) (ps : list string) :
  Py.join sep (p :: ps) = p +:+ foldr (fun q acc => sep +:+ q +:+ acc) "" ps.
Proof.
  revert p. induction ps as [|q ps IH]; intros p.
  - simpl. by rewrite string_app_nil_r.
  - change (Py.join sep (p :: q :: ps)) with (p +:+ sep +:+ Py.join sep (q :: ps)).
    by rewrite IH.
Qed.

Lemma chapter_heading_piece (i : nat) (title content : string) :
  chapter_heading i title content = chapter_marker +:+ chapter_piece i title content.
Proof.
  unfold chapter_heading, chapter_marker, chapter_piece.
  by rewrite <- !string_app_assoc.
Qed.

(** The combined text is the chapter pieces, each behind the marker. *)
Lemma combine_chapters_join (titles contents : list string) :
  combine_chapters titles contents
  = Py.join chapter_marker ("" :: chapter_pieces titles contents).
Proof.
  rewrite join_cons. change ("" +:+ ?s) with s.
  unfold combine_chapters, chapter_pieces.
  generalize (enumerate1 (zip titles contents)). intros l.
  induction l as [|[i [t b]] l IH]; [ done | ].
  cbn [fold_left fmap list_fmap foldr].
  rewrite (fold_left_append _
             (fun '(i, (title, content)) => chapter_heading i title content))
    by (by intros acc [j [title content]]).
  rewrite IH. change ("" +:+ chapter_heading i t b) with (chapter_heading i t b).
  rewrite chapter_heading_piece. by rewrite <- !string_app_assoc.
Qed.

Lemma chapter_texts_combine (titles contents : list string) :
  separable chapter_marker (chapter_pieces titles contents) →
  chapter_texts (combine_chapters titles contents)
  = "" :: chapter_pieces titles contents.
Proof.
  intros Hsep. unfold chapter_texts. rewrite combine_chapters_join.
  apply split_join; [ done | done | ].
  destruct (chapter_pieces titles contents) as [|p ps]; [ done | ].
  split; [ done | exact Hsep ].
Qed.

(** X9. [create_epub_file] finds the chapters of [download_story] again:
    when the marker occurs in no chapter piece other than where the
    headings put it, splitting the combined text gives the empty
    introduction followed by one piece per heading, in order; so no
    introduction page is made and there are as many chapter items as
    headings. *)
Theorem split_recovers_chapters (titles contents : list string) :
  separable chapter_marker (chapter_pieces titles contents) →
  chapter_texts (combine_chapters titles contents)
  = "" :: chapter_pieces titles contents
  ∧ intro_items (combine_chapters titles contents) = []
  ∧ length (main_items (combine_chapters titles contents))
    = min (length titles) (length contents).
Proof.
  intros Hsep.
  pose proof (chapter_texts_combine titles contents Hsep) as Htexts.
  split; [ done | ]. split.
  - unfold intro_items. by rewrite Htexts.
  - unfold main_items. rewrite Htexts. cbn [tail].
    unfold chapter_pieces, enumerate1.
    rewrite !length_fmap, !length_zip_with, !length_fmap, !length_zip_with, !length_seq.
    lia.
Qed.

Lemma split_recovers_chapters_witness :
  chapter_texts (combine_chapters ["Ch1"; "Ch2"]
                   ["A meets B." +:+ LFLF; "B leaves." +:+ LFLF])
  = [""; "1: Ch1" +:+ LFLF +:+ "A meets B." +:+ LFLF;
     "2: Ch2" +:+ LFLF +:+ "B leaves." +:+ LFLF].
Proof.
  apply (split_recovers_chapters ["Ch1"; "Ch2"]
           ["A meets B." +:+ LFLF; "B leaves." +:+ LFLF]).
  split; reflexivity.
Defined.

(** A paragraph that begins with "Chapter " is taken for a heading: the
    text of one chapter then splits into two pieces. *)
Example paragraph_taken_for_heading :
  chapter_texts (combine_chapters ["Ch1"]
                   ["A meets B." +:+ LFLF +:+ "Chapter two of their life." +:+ LFLF])
  = [""; "1: Ch1" +:+ LFLF +:+ "A meets B."; "two of their life." +:+ LFLF].
Proof. reflexivity. Qed.

(** ** The chapter items *)

Lemma string_of_uint_digits (d : Decimal.uint) :
  no_line_feed (NilEmpty.string_of_uint d).
Proof.
  unfold no_line_feed.
  induction d; cbn [NilEmpty.string_of_uint String.list_ascii_of_string];
    [ by intros ?%elem_of_nil | .. ];
    (intros [H | H]%elem_of_cons; [ discriminate | done ]).
Qed.

Lemma no_line_feed_app (s t : string) :
  no_line_feed s → no_line_feed t → no_line_feed (s +:+ t).
Proof.
  unfold no_line_feed. rewrite list_ascii_app, elem_of_app. tauto.
Qed.

(** In front of the first blank line is a text without line feed. *)
Lemma find_blank_line (h rest : string) :
  no_line_feed h → Py.find (h +:+ LFLF +:+ rest) LFLF = Some (String.length h).
Proof.
  unfold no_line_feed. induction h as [|a h IH]; intros Hh.
  - change ("" +:+ LFLF +:+ rest) with (LFLF +:+ rest).
    destruct (LFLF +:+ rest) eqn:E; [ done | ].
    cbn [Py.find]. rewrite <- E, prefix_app. done.
  - change (String a h +:+ LFLF +:+ rest) with (String a (h +:+ LFLF +:+ rest)).
    cbn [Py.find String.list_ascii_of_string] in *.
    assert (String.prefix LFLF (String a (h +:+ LFLF +:+ rest)) = false) as ->.
    { change LFLF with (String (ascii_of_nat 10) LF) at 1. cbn [String.prefix].
      destruct (ascii_dec (ascii_of_nat 10) a) as [<-|]; [ | done ].
      exfalso. apply Hh. by left. }
    rewrite IH; [ done | ]. intros Hin. apply Hh. by right.
Qed.

Lemma take_app_length (h rest : string) : Py.take (String.length h) (h +:+ rest) = h.
Proof.
  unfold Py.take. induction h as [|a h IH].
  - by destruct rest.
  - change (String a h +:+ rest) with (String a (h +:+ rest)). simpl. by rewrite IH.
Qed.

Lemma drop_app_length (h rest : string) : Py.drop (String.length h) (h +:+ rest) = rest.
Proof.
  induction h as [|a h IH]; [ done | ].
  change (String a h +:+ rest) with (String a (h +:+ rest)). exact IH.
Qed.

Lemma main_chapter_piece (i : nat) (title content : string) :
  no_line_feed title →
  main_chapter i (chapter_piece i title content) = expected_chapter i title content.
Proof.
  intros Ht. unfold main_chapter, chapter_piece, expected_chapter.
  assert (no_line_feed (Py.str_of_nat i +:+ ": " +:+ title)) as Hh.
  { apply no_line_feed_app; [ apply string_of_uint_digits | ].
    apply no_line_feed_app; [ | done ].
    unfold no_line_feed. cbn.
    intros [H | [H | H%elem_of_nil]%elem_of_cons]%elem_of_cons; [ | | done ];
      discriminate. }
  pose proof (find_blank_line _ content Hh) as Hfind.
  rewrite <- !string_app_assoc in Hfind. rewrite Hfind.
  replace (Py.str_of_nat i +:+ ": " +:+ title +:+ LFLF +:+ content)
    with ((Py.str_of_nat i +:+ ": " +:+ title) +:+ LFLF +:+ content)
    by (by rewrite <- !string_app_assoc).
  rewrite take_app_length, drop_app_length. done.
Qed.

Lemma enumerate_fmap {A B} (g : nat → A → B) (k : nat) (l : list A) :
  zip (seq k (length ((fun '(i, x) => g i x) <$> zip (seq k (length l)) l)))
      ((fun '(i, x) => g i x) <$> zip (seq k (length l)) l)
  = (fun '(i, x) => (i, g i x)) <$> zip (seq k (length l)) l.
Proof.
  revert k. induction l as [|x l IH]; intros k; [ done | ].
  cbn [length seq zip_with fmap list_fmap]. f_equal.
  specialize (IH (S k)). rewrite !length_fmap in *. exact IH.
Qed.

Lemma main_chapters_expected (k : nat) (l : list (string * string)) :
  Forall (fun p => no_line_feed p.1) l →
  (fun '(i, text) => main_chapter i text)
    <$> ((fun '(i, x) => (i, let '(title, content) := x in
                             chapter_piece i title content))
           <$> zip (seq k (length l)) l)
  = (fun '(i, (title, content)) => expected_chapter i title content)
      <$> zip (seq k (length l)) l.
Proof.
  intros Hl. revert k. induction Hl as [|[t b] l Ht Hl IH]; intros k; [ done | ].
  cbn [length seq zip_with fmap list_fmap]. f_equal; [ | apply IH ].
  by apply main_chapter_piece.
Qed.

Lemma zip_no_line_feed (titles contents : list string) :
  Forall no_line_feed titles →
  Forall (fun p : string * string => no_line_feed p.1) (zip titles contents).
Proof.
  intros Ht. revert contents.
  induction Ht as [|t titles Ht Hts IH]; intros [|b contents]; simpl;
    by constructor.
Qed.

(** X10. Under the same condition, and for titles without line feed, the
    chapter items of the EPUB are those of the crawl, one per heading and
    in order: item [i] is titled "Chapter i: <title>", is stored as
    [chapter_i.xhtml], and holds the formatted body of chapter [i]. *)
Theorem items_are_the_chapters (titles contents : list string) :
  separable chapter_marker (chapter_pieces titles contents) →
  Forall no_line_feed titles →
  main_items (combine_chapters titles contents)
  = (fun '(i, (title, content)) => expected_chapter i title content)
      <$> enumerate1 (zip titles contents).
Proof.
  intros Hsep Htitles.
  pose proof (chapter_texts_combine titles contents Hsep) as Htexts.
  unfold main_items. rewrite Htexts. cbn [tail].
  unfold chapter_pieces, enumerate1.
  rewrite (enumerate_fmap (fun i '(title, content) => chapter_piece i title content)).
  apply main_chapters_expected. by apply zip_no_line_feed.
Qed.

Lemma items_are_the_chapters_witness :
  title <$> main_items (combine_chapters ["Ch1"; "Ch2"]
                          ["A meets B." +:+ LFLF; "B leaves." +:+ LFLF])
  = ["Chapter 1: Ch1"; "Chapter 2: Ch2"].
Proof.
  rewrite (items_are_the_chapters ["Ch1"; "Ch2"]
             ["A meets B." +:+ LFLF; "B leaves." +:+ LFLF]).
  - reflexivity.
  - split; reflexivity.
  - repeat constructor; by_evaluation.
Defined.

(** ** Formatting a body *)












(** ** The lines of the title on the cover *)

Section WrapProperties.

Variable text_width : string → Z.

Lemma wrap_fold (words : list string) (groups : list (list string)) (cur : list string) :
  fold_left (Cover.wrap_step text_width) words (Py.join " " <$> groups, cur)
  = (let '(groups', cur') := fold_left (Cover.group_step text_width) words (groups, cur) in
     (Py.join " " <$> groups', cur')).
Proof.
  revert groups cur. induction words as [|w words IH]; intros groups cur; [ done | ].
  cbn [fold_left Cover.wrap_step Cover.group_step].
  destruct (text_width (Py.join " " (cur ++ [w])) <=? Cover.max_w)%Z.
  - apply IH.
  - rewrite <- IH. by rewrite fmap_app.
Qed.

Lemma wrap_words_groups (words : list string) :
  Cover.wrap_words text_width words
  = Py.join " " <$> Cover.wrap_groups text_width words.
Proof.
  unfold Cover.wrap_words, Cover.wrap_groups.
  change (@nil string, @nil string) with (Py.join " " <$> @nil (list string), @nil string).
  rewrite wrap_fold.
  destruct (fold_left _ words ([], [])) as [groups cur].
  destruct cur; [ done | by rewrite fmap_app ].
Qed.

Lemma wrap_inv_fold (words done_words : list string)
    (st : list (list string) * list string) :
  Cover.wrap_inv text_width done_words st →
  Cover.wrap_inv text_width (done_words ++ words)
    (fold_left (Cover.group_step text_width) words st).
Proof.
  revert done_words st. induction words as [|w words IH]; intros done_words st Hinv.
  { by rewrite app_nil_r. }
  cbn [fold_left]. replace (done_words ++ w :: words) with ((done_words ++ [w]) ++ words)
    by (by rewrite <- app_assoc).
  apply IH. destruct st as [groups cur].
  destruct Hinv as (Hcat & Hfit & Hcur & Hempty & Hstart & Hfirst). simpl in *.
  unfold Cover.group_step.
  destruct (text_width (Py.join " " (cur ++ [w])) <=? Cover.max_w)%Z eqn:E; simpl.
  - apply Z.leb_le in E. repeat split; simpl.
    + by rewrite app_assoc, Hcat.
    + done.
    + by intros _.
    + intros g Hg ->. destruct (Hempty [] Hg eq_refl) as (w0 & ws & -> & Hw).
      by exists w0, (ws ++ [w]).
    + by destruct cur.
    + intros w0 ws Heq Hw. destruct done_words as [|d ds].
      * simpl in Heq. injection Heq as <- <-.
        destruct cur as [|c cur]; [ simpl in E; lia | ].
        apply app_eq_nil in Hcat as [_ Hcat]. discriminate.
      * injection Heq as <- _. by apply (Hfirst d ds).
  - apply Z.leb_gt in E. repeat split; simpl.
    + rewrite concat_app. simpl. rewrite app_nil_r. by rewrite Hcat.
    + intros g [Hg | Hg%list_elem_of_singleton]%elem_of_app; [ by apply Hfit | ].
      by subst g.
    + lia.
    + intros g [Hg | Hg%list_elem_of_singleton]%elem_of_app Hnil.
      * destruct (Hempty g Hg Hnil) as (w0 & ws & -> & Hw). by exists w0, (ws ++ [w]).
      * subst g. subst cur. rewrite (Hstart eq_refl). exists w, []. split; [ done | ].
        simpl in E. lia.
    + done.
    + intros w0 ws Heq Hw. destruct done_words as [|d ds].
      * simpl in Heq. injection Heq as <- <-.
        rewrite elem_of_app. right. apply list_elem_of_singleton.
        destruct cur as [|c cur]; [ done | ].
        apply app_eq_nil in Hcat as [_ Hcat]. discriminate.
      * injection Heq as <- _. rewrite elem_of_app. left. by apply (Hfirst d ds).
Qed.

Lemma wrap_groups_inv (words : list string) :
  concat (Cover.wrap_groups text_width words) = words
  ∧ (∀ g, g ∈ Cover.wrap_groups text_width words → 2 ≤ length g →
          (text_width (Py.join " " g) ≤ Cover.max_w)%Z)
  ∧ ([] ∈ Cover.wrap_groups text_width words ↔
     ∃ w ws, words = w :: ws ∧ (Cover.max_w < text_width w)%Z).
Proof.
  pose proof (wrap_inv_fold words [] ([], [])) as Hinv.
  unfold Cover.wrap_groups. simpl in Hinv.
  destruct (fold_left _ words ([], [])) as [groups cur].
  destruct Hinv as (Hcat & Hfit & Hcur & Hempty & Hstart & Hfirst).
  { repeat split; try done; simpl; try lia; by intros g ?%elem_of_nil. }
  simpl in *. destruct cur as [|c cur].
  - rewrite app_nil_r in Hcat. repeat split; try done.
    + intros Hin. by apply (Hempty []).
    + intros (w & ws & -> & Hw). by apply (Hfirst w ws).
  - repeat split.
    + rewrite concat_app. simpl. by rewrite app_nil_r.
    + intros g [Hg | ->%list_elem_of_singleton]%elem_of_app; [ by apply Hfit | done ].
    + intros [Hg | Hg%list_elem_of_singleton]%elem_of_app; [ by apply (Hempty []) | done ].
    + intros (w & ws & -> & Hw). rewrite elem_of_app. left. by apply (Hfirst w ws).
Qed.

(** X12. The title is broken into lines without losing or reordering a
    word: the lines are the words of the title, in order, joined by single
    spaces within each line. Every line of two words or more fits the width
    left beside the spine; only a line of one word may be wider. *)
Theorem title_lines_keep_the_words (words : list string) :
  Cover.wrap_words text_width words
  = Py.join " " <$> Cover.wrap_groups text_width words
  ∧ concat (Cover.wrap_groups text_width words) = words
  ∧ (∀ g, g ∈ Cover.wrap_groups text_width words → 2 ≤ length g →
          (text_width (Py.join " " g) ≤ Cover.max_w)%Z).
Proof.
  split; [ apply wrap_words_groups | ].
  pose proof (wrap_groups_inv words) as (H1 & H2 & _). done.
Qed.

Lemma rev_app_nonempty (s t : string) : t ≠ "" → String.rev_app s t ≠ "".
Proof.
  revert t. induction s as [|a s IH]; intros t Ht; [ done | ].
  cbn [String.rev_app]. by apply IH.
Qed.

Lemma flush_nonempty (cur w : string) : w ∈ Cover.flush cur → w ≠ "".
Proof.
  destruct cur as [|a cur]; [ by intros ?%elem_of_nil | ].
  intros ->%list_elem_of_singleton. unfold String.rev. cbn [String.rev_app].
  by apply rev_app_nonempty.
Qed.

Lemma split_words_go_nonempty (s cur w : string) :
  w ∈ Cover.split_words_go cur s → w ≠ "".
Proof.
  revert cur. induction s as [|a s IH]; intros cur; cbn [Cover.split_words_go].
  - apply flush_nonempty.
  - destruct (Py.is_space a); [ | apply IH ].
    intros [Hw | Hw]%elem_of_app; [ by apply (flush_nonempty cur) | by apply (IH "") ].
Qed.

(** No word of [title.split()] is empty. *)
Lemma split_words_nonempty (title w : string) : w ∈ Cover.split_words title → w ≠ "".
Proof. apply split_words_go_nonempty. Qed.

Lemma elem_of_concat {A} (x : A) (ls : list (list A)) :
  x ∈ concat ls ↔ ∃ l, l ∈ ls ∧ x ∈ l.
Proof.
  induction ls as [|l ls IH]; simpl.
  - split; [ by intros ?%elem_of_nil | by intros (l & ?%elem_of_nil & _) ].
  - rewrite elem_of_app, IH. split.
    + intros [Hx | (l' & Hl' & Hx)]; [ exists l; split; [ by left | done ] | ].
      exists l'. split; [ by right | done ].
    + intros (l' & [-> | Hl']%elem_of_cons & Hx); [ by left | right; by exists l' ].
Qed.

Lemma join_empty (g : list string) :
  (∀ w, w ∈ g → w ≠ "") → Py.join " " g = "" ↔ g = [].
Proof.
  intros Hg. split; [ | by intros -> ].
  destruct g as [|w [|w' g]]; [ done | | ].
  - simpl. intros ->. by destruct (Hg "" ltac:(by left)).
  - change (Py.join " " (w :: w' :: g)) with (w +:+ " " +:+ Py.join " " (w' :: g)).
    destruct w as [|a w]; [ by destruct (Hg "" ltac:(by left)) | ].
    change (String a w +:+ " " +:+ Py.join " " (w' :: g))
      with (String a (w +:+ " " +:+ Py.join " " (w' :: g))).
    discriminate.
Qed.

(** X13. The cover gets an empty first line exactly when the first word of
    the title is by itself wider than the width left beside the spine: the
    loop then closes the line it has not begun. No other cause gives an
    empty line. *)
Theorem title_empty_line (title : string) :
  "" ∈ Cover.wrap_title text_width title ↔
  ∃ w ws, Cover.split_words title = w :: ws ∧ (Cover.max_w < text_width w)%Z.
Proof.
  unfold Cover.wrap_title. rewrite wrap_words_groups.
  pose proof (wrap_groups_inv (Cover.split_words title)) as (Hcat & _ & Hempty).
  rewrite <- Hempty. rewrite list_elem_of_fmap. split.
  - intros (g & Hg & Hin).
    assert (g = []) as ->; [ | done ].
    apply join_empty; [ | done ].
    intros w Hw. apply (split_words_nonempty title). rewrite <- Hcat.
    apply elem_of_concat. by exists g.
  - intros Hin. by exists [].
Qed.

End WrapProperties.

(** ** Colours and margins of the cover *)

(** X14. Whatever the digest of the title, the background is one of the
    ten colours of the palette, and the spine is that colour with 20 taken
    off each component: no component of the palette is small enough for the
    [max(0, ...)] of line 343 to cut it, so the spine is a valid colour,
    darker than the background in each component. *)
Theorem cover_colours (digest : nat) :
  ∃ r g b,
    Cover.background_colors !! Cover.color_index digest = Some (r, g, b)
    ∧ Cover.spine_color (r, g, b) = (r - 20, g - 20, b - 20)%Z
    ∧ (0 ≤ r - 20 ∧ r ≤ 255 ∧ 0 ≤ g - 20 ∧ g ≤ 255 ∧ 0 ≤ b - 20 ∧ b ≤ 255)%Z.
Proof.
  assert (∀ i, i < 10 →
            ∃ r g b,
              Cover.background_colors !! i = Some (r, g, b)
              ∧ Cover.spine_color (r, g, b) = (r - 20, g - 20, b - 20)%Z
              ∧ (0 ≤ r - 20 ∧ r ≤ 255 ∧ 0 ≤ g - 20 ∧ g ≤ 255
                 ∧ 0 ≤ b - 20 ∧ b ≤ 255)%Z) as Hall.
  { intros i Hi.
    do 10 (destruct i as [|i];
           [ do 3 eexists; split; [ reflexivity | split; [ reflexivity | lia ] ] | ]).
    lia. }
  apply Hall. unfold Cover.color_index.
  apply (Nat.mod_upper_bound digest 10). discriminate.
Qed.

(** X15. A title line that fits the width left beside the spine is drawn
    clear of the spine and inside the canvas, with at least 70 pixels on
    either side and left and right margins that differ by one pixel at most.
    A line wider than the canvas less twice the spine, which only a single
    long word can give, begins on the spine or left of it. *)
Theorem fitted_line_beside_spine (w : Z) :
  (0 ≤ w ≤ Cover.max_w)%Z →
  (Cover.spine_w < 70 ≤ Cover.line_x w)%Z
  ∧ (Cover.line_x w + w ≤ Cover.width - 70)%Z
  ∧ (0 ≤ (Cover.width - (Cover.line_x w + w)) - Cover.line_x w ≤ 1)%Z
  ∧ (∀ w', (Cover.width - 2 * Cover.spine_w < w')%Z →
           (Cover.line_x w' < Cover.spine_w)%Z).
Proof.
  unfold Cover.line_x, Cover.max_w, Cover.width, Cover.spine_w. intros Hw.
  pose proof (Z.div_mod (1200 - w) 2 ltac:(lia)) as Hdiv.
  pose proof (Z.mod_pos_bound (1200 - w) 2 ltac:(lia)) as Hmod.
  repeat split; try lia.
  intros w' Hw'.
  pose proof (Z.div_mod (1200 - w') 2 ltac:(lia)).
  pose proof (Z.mod_pos_bound (1200 - w') 2 ltac:(lia)). lia.
Qed.

Lemma fitted_line_beside_spine_witness :
  (70 ≤ Cover.line_x 600)%Z ∧ (Cover.line_x 600 + 600 ≤ Cover.width - 70)%Z.
Proof.
  destruct (fitted_line_beside_spine 600) as ([_ H1] & H2 & _).
  - unfold Cover.max_w, Cover.width, Cover.spine_w. lia.
  - done.
Defined.

(** ** The error log *)

Lemma prefix_split (p s : string) :
  String.prefix p s = true → ∃ post, s = p +:+ post.
Proof.
  revert s. induction p as [|a p IH]; intros s; [ by exists s | ].
  destruct s as [|b s]; [ done | ]. cbn [String.prefix].
  destruct (ascii_dec a b) as [<-|]; [ | done ].
  intros [post ->]%IH. by exists post.
Qed.

(** [sub in s] says that [s] is made of a text, [sub] and a text. *)
Lemma contains_spec (s sub : string) :
  contains s sub = true ↔ ∃ pre post, s = pre +:+ sub +:+ post.
Proof.
  unfold contains. split.
  - induction s as [|a s IH]; cbn [Py.find].
    + destruct (String.prefix sub "") eqn:E; [ | done ]. intros _.
      apply prefix_split in E as [post ->]. by exists "", post.
    + destruct (String.prefix sub (String a s)) eqn:E.
      * intros _. apply prefix_split in E as [post E]. exists "", post. by rewrite E.
      * destruct (Py.find s sub) eqn:Ef; [ | done ]. intros _.
        destruct (IH eq_refl) as (pre & post & ->). by exists (String a pre), post.
  - intros (pre & post & ->). induction pre as [|a pre IH].
    + change ("" +:+ sub +:+ post) with (sub +:+ post).
      destruct (sub +:+ post) eqn:E; cbn [Py.find]; rewrite <- E, prefix_app; done.
    + change (String a pre +:+ sub +:+ post) with (String a (pre +:+ sub +:+ post)).
      cbn [Py.find]. destruct (String.prefix sub _); [ done | ].
      by destruct (Py.find (pre +:+ sub +:+ post) sub).
Qed.

(** X16. An entry of the error log always names the URL it is given: when
    the log is switched on and the URL is not empty, the entry begins with
    the time stamp and the message, holds the URL somewhere, and ends with
    the rule of fifty hyphens; the line "URL: ..." is added only when the
    message does not hold the URL already. *)
Theorem error_entry_names_url (timestamp error_message url : string) :
  Py.truthy url = true →
  ∃ entry,
    log_error_entry true timestamp error_message (Some url) = Some entry
    ∧ contains entry url = true
    ∧ String.prefix (timestamp +:+ " - " +:+ error_message) entry = true
    ∧ (∃ body, entry = body +:+ LF +:+ string_mul "-" 50 +:+ LF)
    ∧ (contains error_message url = true →
       entry = timestamp +:+ " - " +:+ error_message
               +:+ LF +:+ string_mul "-" 50 +:+ LF)
    ∧ (contains error_message url = false →
       entry = timestamp +:+ " - " +:+ error_message +:+ LF +:+ "URL: " +:+ url
               +:+ LF +:+ string_mul "-" 50 +:+ LF).
Proof.
  intros Hurl. unfold log_error_entry. rewrite Hurl. cbn [andb].
  destruct (contains error_message url) eqn:E; cbn [negb]; eexists;
    (split; [ reflexivity | ]).
  - split; [ | split; [ | split; [ | split; [ | done ] ] ] ].
    + apply contains_spec in E as (pre & post & ->).
      apply contains_spec.
      exists (timestamp +:+ " - " +:+ pre), (post +:+ LF +:+ string_mul "-" 50 +:+ LF).
      by rewrite <- !string_app_assoc.
    + apply prefix_app.
    + by eexists.
    + intros _. by rewrite <- !string_app_assoc.
  - split; [ | split; [ | split; [ | split; [ done | ] ] ] ].
    + apply contains_spec.
      exists (timestamp +:+ " - " +:+ error_message +:+ LF +:+ "URL: "),
             (LF +:+ string_mul "-" 50 +:+ LF).
      by rewrite <- !string_app_assoc.
    + rewrite <- (string_app_assoc (timestamp +:+ " - " +:+ error_message)).
      apply prefix_app.
    + by eexists.
    + intros _. by rewrite <- !string_app_assoc.
Qed.

Lemma error_entry_names_url_witness :
  contains
    (default "" (log_error_entry true "2024-01-01 10:00:00" "Network error"
                   (Some Broken.url)))
    Broken.url = true.
Proof.
  destruct (error_entry_names_url "2024-01-01 10:00:00" "Network error" Broken.url)
    as (entry & Hentry & Hin & _); [ reflexivity | ].
  by rewrite Hentry.
Defined.

(** ** Reading the lines of the cover back *)

Lemma rev_app_rev_app (s t u : string) :
  String.rev_app (String.rev_app s t) u = String.rev_app t (s +:+ u).
Proof.
  revert t u. induction s as [|a s IH]; intros t u; [ done | ].
  cbn [String.rev_app]. by rewrite IH.
Qed.

Lemma rev_rev_app (w : string) : String.rev (String.rev_app w "") = w.
Proof.
  unfold String.rev. rewrite rev_app_rev_app. cbn [String.rev_app].
  apply string_app_nil_r.
Qed.

Lemma rev_app_chars (s t : string) (a : ascii) :
  a ∈ String.list_ascii_of_string (String.rev_app s t) ↔
  a ∈ String.list_ascii_of_string s ∨ a ∈ String.list_ascii_of_string t.
Proof.
  revert t. induction s as [|b s IH]; intros t; cbn [String.rev_app String.list_ascii_of_string].
  - split; [ by right | by intros [?%elem_of_nil | ?] ].
  - rewrite IH. cbn [String.list_ascii_of_string]. rewrite !elem_of_cons. tauto.
Qed.

(** A word is read to its end. *)
Lemma split_words_go_word (w cur rest : string) :
  (∀ a, a ∈ String.list_ascii_of_string w → Py.is_space a = false) →
  Cover.split_words_go cur (w +:+ rest)
  = Cover.split_words_go (String.rev_app w cur) rest.
Proof.
  revert cur. induction w as [|a w IH]; intros cur Hw; [ done | ].
  change (String a w +:+ rest) with (String a (w +:+ rest)).
  cbn [Cover.split_words_go String.rev_app].
  rewrite (Hw a) by (by left). apply IH. intros b Hb. apply Hw. by right.
Qed.

Lemma flush_rev_word (w : string) : w ≠ "" → Cover.flush (String.rev_app w "") = [w].
Proof.
  intros Hw. unfold Cover.flush.
  destruct (String.rev_app w "") eqn:E.
  - destruct w as [|a w]; [ done | ]. cbn [String.rev_app] in E.
    by apply rev_app_nonempty in E.
  - by rewrite <- E, rev_rev_app.
Qed.

(** Words joined by single spaces split into the same words. *)
Lemma split_words_join (g : list string) :
  Forall is_word g → Cover.split_words (Py.join " " g) = g.
Proof.
  unfold Cover.split_words. induction 1 as [|w g [Hne Hw] Hg IH]; [ done | ].
  destruct g as [|w' g].
  - simpl Py.join. rewrite <- (string_app_nil_r w) at 1.
    rewrite split_words_go_word by done. cbn [Cover.split_words_go].
    by apply flush_rev_word.
  - change (Py.join " " (w :: w' :: g)) with (w +:+ " " +:+ Py.join " " (w' :: g)).
    rewrite split_words_go_word by done.
    change (" " +:+ Py.join " " (w' :: g)) with (String " " (Py.join " " (w' :: g))).
    cbn [Cover.split_words_go]. change (Py.is_space " ") with true. cbn iota.
    rewrite IH. by rewrite flush_rev_word.
Qed.

Lemma flush_word (cur w : string) :
  (∀ a, a ∈ String.list_ascii_of_string cur → Py.is_space a = false) →
  w ∈ Cover.flush cur → is_word w.
Proof.
  intros Hcur Hw. split; [ by apply (flush_nonempty cur) | ].
  destruct cur as [|b cur]; [ by apply elem_of_nil in Hw | ].
  apply list_elem_of_singleton in Hw as ->. intros a Ha.
  apply rev_app_chars in Ha as [Ha | Ha%elem_of_nil]; [ by apply Hcur | done ].
Qed.

Lemma split_words_go_words (s cur w : string) :
  (∀ a, a ∈ String.list_ascii_of_string cur → Py.is_space a = false) →
  w ∈ Cover.split_words_go cur s → is_word w.
Proof.
  revert cur. induction s as [|a s IH]; intros cur Hcur; cbn [Cover.split_words_go].
  - by apply flush_word.
  - destruct (Py.is_space a) eqn:Ea.
    + intros [Hw | Hw]%elem_of_app; [ by apply (flush_word cur) | ].
      apply (IH ""); [ by intros b ?%elem_of_nil | done ].
    + apply IH. intros b [-> | Hb]%elem_of_cons; [ done | by apply Hcur ].
Qed.

Section WrapRoundTrip.

Variable text_width : string → Z.

(** X17. Reading the lines of the cover back word by word gives the words
    of the title, in order: whatever the widths the font gives, wrapping
    neither loses, adds, splits nor merges a word. *)
Theorem cover_lines_read_back (title : string) :
  concat (Cover.split_words <$> Cover.wrap_title text_width title)
  = Cover.split_words title.
Proof.
  unfold Cover.wrap_title. rewrite wrap_words_groups.
  pose proof (wrap_groups_inv text_width (Cover.split_words title)) as (Hcat & _).
  rewrite <- Hcat at 2.
  assert (Forall (Forall is_word) (Cover.wrap_groups text_width (Cover.split_words title)))
    as Hwords.
  { apply Forall_forall. intros g Hg. apply Forall_forall. intros w Hw.
    apply (split_words_go_words title "").
    - by intros a ?%elem_of_nil.
    - fold (Cover.split_words title). rewrite <- Hcat. apply elem_of_concat.
      by exists g. }
  clear Hcat. induction Hwords as [|g groups Hg Hgroups IH]; [ done | ].
  cbn [fmap list_fmap concat]. rewrite split_words_join by done. by rewrite IH.
Qed.

End WrapRoundTrip.

(** ** Subjects of the book *)

(** X18. The category is handed to the packager twice: a crawl that
    returns a non-empty category returns it among the tags as well (it is
    put in front of them when it is not one of them), and [create_epub_file]
    writes the category and then every tag as a subject; the list of
    subjects is the category followed by the tags, the category among
    them. *)
Theorem category_is_subject_twice
    (web : site) (fuel : nat) (url : string) (ret : returned) (cat : string) :
  download_story web fuel url = Some ret →
  ret_category ret = Some cat →
  cat ≠ "" →
  ∃ tags, ret_tags ret = Some tags
          ∧ cat ∈ tags
          ∧ subjects (ret_category ret) (ret_tags ret) = cat :: tags.
Proof.
  intros Hrun Hcat Hne.
  assert (ret ≠ all_none) as Hret by (intros ->; discriminate).
  destruct (run_success web fuel url ret Hrun Hret) as (c & Hr & Hq & ->).
  assert (meta_inv web url AtQueue c) as Hinv.
  { apply (reachable_invariant web url (meta_inv web url)); [ | | done ].
    - left. repeat split; try done. left. split; [ done | set_solver ].
    - intros ? ? ? ?. apply meta_inv_step. }
  simpl in Hcat.
  destruct Hinv as [(_ & _ & _ & Hnone & _) | (r & _ & _ & _ & Hc & Htags & _)];
    [ congruence | ].
  exists (story_tags c). simpl. split; [ done | ].
  rewrite Hcat. unfold subjects. simpl.
  assert (Py.truthy cat = true) as -> by (by destruct cat).
  split; [ | done ].
  rewrite Htags, <- Hc, Hcat. unfold extract_tags.
  assert (Py.truthy cat = true) as -> by (by destruct cat). simpl.
  case_bool_decide; simpl; [ done | by left ].
Qed.

Lemma category_is_subject_twice_witness :
  subjects (Some "I/T") (Some ["I/T"; "romance"; "beach"])
  = ["I/T"; "I/T"; "romance"; "beach"].
Proof.
  destruct (category_is_subject_twice Sample.web 4 Sample.url
              (default all_none (download_story Sample.web 4 Sample.url)) "I/T")
    as (tags & Htags & _ & Hsub).
  - vm_compute. reflexivity.
  - reflexivity.
  - discriminate.
  - reflexivity.
Defined.

(** ** The story title *)

Lemma headline_inv_step (web : site) (url : string) (k k' : control) (c c' : crawl) :
  headline_inv web url k c → step web k c = Continue k' c' → headline_inv web url k' c'.
Proof.
  intros (Hmeta & Htitle & Hfresh & Hlog & Hhead) Hs.
  split; [ by eapply meta_inv_step | ]. split; [ by eapply title_inv_step | ].
  pose proof Hs as Hs'. apply step_continue in Hs'. destruct k as [|v].
  - destruct Hs' as (u & rest & _ & Hs').
    case_bool_decide; destruct Hs' as [_ ->]; done.
  - destruct Hs' as [(_ & _ & ->) | (u & r & Hu & Ht & Hw & Hp)]; [ done | ].
    pose proof (process_page_log _ _ _ _ _ Hp) as Hlog'. simpl in Hlog'.
    assert (fetch_log c' ≠ []) as Hne.
    { rewrite Hlog'. by destruct (fetch_log c). }
    split; [ done | ]. split; [ done | ].
    intros _ Hnone r' Hw'.
    apply process_page_title in Hp as [[Hs1 Ht1] | (_ & _ & t & Hs1 & _)];
      [ | congruence ].
    simpl in Hs1, Ht1. rewrite Ht1, Hs1 in *.
    destruct Htitle as (_ & _ & Hch). specialize (Hch (mk_is_Some _ _ Hu)).
    destruct (bool_decide (current_page c = 1) && bool_decide (current_chapter v = 1))
      eqn:Efirst.
    + apply andb_true_iff in Efirst as [Hp1%bool_decide_eq_true Hc1%bool_decide_eq_true].
      destruct Hmeta as [(_ & _ & _ & _ & _ & Hk) | (r0 & _ & _ & _ & _ & _ & _ & _ & Hk)].
      * destruct Hk as (Hurl & _). rewrite Hu in Hurl. injection Hurl as ->. congruence.
      * rewrite Hu in Hk. destruct Hk as (_ & Hch' & Hfirst).
        exfalso. apply Hfirst; [ | done ].
        destruct (chapter_contents c); [ done | simpl in *; lia ].
    + apply Hhead; [ | done | done ].
      intros Hempty. destruct (Hfresh Hempty) as [Hp1 Hc0].
      rewrite Hc0 in Hch. simpl in Hch.
      rewrite !bool_decide_eq_true_2 in Efirst by done. discriminate.
Qed.

(** X19. The title returned for a story is the title of its first page
    unless a series title was found: when a crawl of a non-empty start URL
    succeeds, the story title is the series title captured, if any, and
    otherwise the stripped headline of the page served at the start URL,
    "Unknown Chapter" when that page has no headline. The initial value
    "Unknown Title" is overwritten on the first page in every case. *)
Theorem story_title_source
    (web : site) (fuel : nat) (url : string) (ret : returned) :
  download_story web fuel url = Some ret →
  ret ≠ all_none →
  Py.truthy url = true →
  ∃ r c, web url = Response r
         ∧ reachable web url AtQueue c
         ∧ ret = result_of c
         ∧ ret_title ret
           = Some (match series_title c with
                   | Some t => t
                   | None => current_title r
                   end)
         ∧ (series_title c = None → headline (parsed r) = None →
            ret_title ret = Some "Unknown Chapter").
Proof.
  intros Hrun Hne Hurl.
  destruct (run_success web fuel url ret Hrun Hne) as (c & Hr & Hq & ->).
  assert (headline_inv web url AtQueue c) as (Hmeta & Htitle & _ & Hlog & Hhead).
  { apply (reachable_invariant web url (headline_inv web url)); [ | | done ].
    - split; [ | by repeat split ].
      left. repeat split; try done. left. split; [ done | set_solver ].
    - intros ? ? ? ?. apply headline_inv_step. }
  destruct Hmeta as [(_ & _ & _ & _ & _ & Hk) | (r & Hw & _ & _ & _ & _ & _ & _ & Hc)].
  { destruct Hk as [[Hk _] | [_ Hf]]; congruence. }
  exists r, c. split; [ done | ]. split; [ done | ]. split; [ done | ].
  assert (story_title c = match series_title c with
                          | Some t => t
                          | None => current_title r
                          end) as Hst.
  { destruct (series_title c) as [t|] eqn:Es.
    - destruct Htitle as (Hst & _). by apply Hst.
    - apply Hhead; [ by apply Hlog | done | done ]. }
  simpl. split; [ by rewrite Hst | ].
  intros Hs Hh. rewrite Hst, Hs. unfold current_title. by rewrite Hh.
Qed.

Lemma story_title_source_witness :
  ret_title (default all_none (download_story Series.named 10 Series.url1))
  = Some "Saga".
Proof.
  destruct (story_title_source Series.named 10 Series.url1
              (default all_none (download_story Series.named 10 Series.url1)))
    as (r & c & _ & _ & Hret & Ht & _).
  - vm_compute. reflexivity.
  - vm_compute. discriminate.
  - reflexivity.
  - vm_compute. reflexivity.
Defined.
